(** * Job lifecycle and content pipeline of the AI podcast generator

    A shallow embedding of [src/backend/app/api/v1/podcast.py] (job store,
    orchestrator [_generate_podcast], control API) and of the readability
    filter of [src/backend/app/services/openai_service.py].

    Modelling conventions.
    - Python [str] is modelled by Rocq [string] (characters are bytes).
    - The process-wide dict [_STORE] is a [gmap string _State].
    - [datetime.utcnow()] is a natural number [now] supplied to each step.
    - [progress] (a float [i / 10.0]) is kept in tenths: [3] stands for 0.3.
    - Outside behaviour that the code only calls (materials on disk, the
      script producer, the speech synthesizer) is an input of the step that
      runs it: its result, or the message of the exception it raises. *)

From Stdlib Require Import String Ascii Bool Arith Lia List ZArith Floats Uint63 DecimalString.
From stdpp Require Import base gmap strings list fin_maps.
Import ListNotations.
Open Scope string_scope.

(* ------------------------------------------------------------------ *)
(** ** Data model: [_State] (podcast.py lines 178-191) *)

Inductive Status := Queued | Running | Done | Failed | Cancelled.

Global Instance Status_eq_dec : EqDecision Status.
Proof. solve_decision. Defined.

Record _State := mkState {
  id : string;
  title : string;
  description : option string;
  voice : option string;
  script : option string;
  source_urls : list string;
  status : Status;
  progress : nat;          (* tenths *)
  audio_url : option string;
  error : option string;
  created_at : nat;
  updated_at : nat;
  materials_set : option string
}.

(** Field assignments [state.f = v] on the job object. *)
Definition set_status (v : Status) (s : _State) : _State :=
  mkState s.(id) s.(title) s.(description) s.(voice) s.(script) s.(source_urls)
    v s.(progress) s.(audio_url) s.(error) s.(created_at) s.(updated_at) s.(materials_set).
Definition set_progress (v : nat) (s : _State) : _State :=
  mkState s.(id) s.(title) s.(description) s.(voice) s.(script) s.(source_urls)
    s.(status) v s.(audio_url) s.(error) s.(created_at) s.(updated_at) s.(materials_set).
Definition set_script (v : option string) (s : _State) : _State :=
  mkState s.(id) s.(title) s.(description) s.(voice) v s.(source_urls)
    s.(status) s.(progress) s.(audio_url) s.(error) s.(created_at) s.(updated_at) s.(materials_set).
Definition set_audio_url (v : option string) (s : _State) : _State :=
  mkState s.(id) s.(title) s.(description) s.(voice) s.(script) s.(source_urls)
    s.(status) s.(progress) v s.(error) s.(created_at) s.(updated_at) s.(materials_set).
Definition set_error (v : option string) (s : _State) : _State :=
  mkState s.(id) s.(title) s.(description) s.(voice) s.(script) s.(source_urls)
    s.(status) s.(progress) s.(audio_url) v s.(created_at) s.(updated_at) s.(materials_set).
Definition set_updated_at (v : nat) (s : _State) : _State :=
  mkState s.(id) s.(title) s.(description) s.(voice) s.(script) s.(source_urls)
    s.(status) s.(progress) s.(audio_url) s.(error) s.(created_at) v s.(materials_set).

Abbreviation store := (gmap string _State).

(** [state.status in {"cancelled", "failed", "done"}] *)
Definition is_terminal (st : Status) : bool :=
  match st with Cancelled | Failed | Done => true | _ => false end.

(** Python truthiness of an [Optional[str]]: [None] and [""] are falsy. *)
Definition truthy (o : option string) : bool :=
  match o with None => false | Some s => negb (String.eqb s "") end.

(* ------------------------------------------------------------------ *)
(** ** The body of the [try] block: a state-and-exception monad

    [Job A] runs on the job object [state]; an exception carries its
    message [str(exc)] and keeps the mutations made before it was raised,
    as Python does with a mutated object. *)

Definition Job (A : Type) := _State -> _State * (string + A).

Definition ret {A} (a : A) : Job A := fun s => (s, inr a).
Definition bind {A B} (m : Job A) (k : A -> Job B) : Job B :=
  fun s => match m s with
           | (s', inl e) => (s', inl e)
           | (s', inr a) => k a s'
           end.
Definition raise {A} (msg : string) : Job A := fun s => (s, inl msg).
Definition get : Job _State := fun s => (s, inr s).
Definition modify (f : _State -> _State) : Job unit := fun s => (f s, inr tt).

Global Instance Job_ret : MRet Job := @ret.
Global Instance Job_bind : MBind Job := fun A B k m => bind m k.

(** Outcome of a call that may raise. *)
Inductive outcome (A : Type) := Ok (a : A) | Raise (msg : string).
Arguments Ok {A} a.
Arguments Raise {A} msg.

Definition lift {A} (o : outcome A) : Job A :=
  match o with Ok a => ret a | Raise m => raise m end.

(* ------------------------------------------------------------------ *)
(** ** Script acquisition (podcast.py lines 305-325)

    The materials found on disk decide the branch: a content pillar
    ([generate_script_from_pillar]), a non-blank materials text
    ([generate_script] on [_build_prompt ...]), or nothing (the placeholder
    script).  The producers are external calls: their outcome is given. *)

Inductive materials :=
  | PillarFound (produced : outcome string)
  | TextFound (produced : outcome string)
  | NoMaterials.

(** [", ".join(str(u) for u in state.source_urls) or "no sources"] *)
Definition joined_sources (urls : list string) : string :=
  let j := String.concat ", " urls in
  if String.eqb j "" then "no sources" else j.

Definition placeholder_script (s : _State) : string :=
  "[Auto-script] Podcast '" ++ s.(title) ++ "'. " ++
  "Sources: " ++ joined_sources s.(source_urls) ++
  ". This is a demo script " ++ String (ascii_of_nat 226) (String (ascii_of_nat 128)
    (String (ascii_of_nat 148) EmptyString)) ++
  " replace with the actual generated content.".

Definition acquire_script (m : materials) (s : _State) : outcome string :=
  match m with
  | PillarFound r => r
  | TextFound r => r
  | NoMaterials => Ok (placeholder_script s)
  end.

(* ------------------------------------------------------------------ *)
(** ** The orchestrator [_generate_podcast] (podcast.py lines 283-348)

    Between two [await asyncio.sleep(0.4)] the coroutine runs without
    interruption, so it is cut into segments at its three yield points.
    Segment [0] is the entry guard and [status = "running"]; segment [i]
    ([i = 1, 2, 3]) is iteration [i] of the loop, and segment [3] goes on
    with the synthesis phase to the end. *)

(** One iteration of [for i in range(1, 4)] after its [await]. *)
Definition checkpoint (i : nat) (m : materials) (now : nat) : Job unit :=
  modify (set_progress i);;
  modify (set_updated_at now);;
  s ← get;
  if negb (truthy s.(script)) then
    sc ← lift (acquire_script m s);
    modify (set_script (Some sc));;
    modify (set_updated_at now)
  else mret tt.

(** [state.script or state.title] *)
Definition script_or_title (s : _State) : string :=
  match s.(script) with
  | Some sc => if truthy (Some sc) then sc else s.(title)
  | None => s.(title)
  end.

(** [os.makedirs(...)] and [text_to_speech(...)]: [synth text] is [Some msg]
    when one of them raises, [None] when the file is written. *)
Definition synthesis (podcast_id : string) (synth : string -> option string)
    (now : nat) : Job unit :=
  s ← get;
  lift (match synth (script_or_title s) with
        | Some e => Raise e
        | None => Ok tt
        end);;
  modify (set_progress 9);;
  modify (set_updated_at now);;
  modify (set_audio_url (Some ("/media/audio/" ++ podcast_id ++ ".mp3")));;
  modify (set_progress 10);;
  modify (set_status Done);;
  modify (set_updated_at now).

(** The [try] body of segment [i]; [true] when the coroutine suspends again. *)
Definition segment (podcast_id : string) (i : nat) (m : materials)
    (synth : string -> option string) (now : nat) : Job bool :=
  checkpoint i m now;;
  if Nat.ltb i 3 then mret true
  else synthesis podcast_id synth now;; mret false.

(** [except Exception as exc:] *)
Definition try_except (body : Job bool) (now : nat) (s : _State) : _State * bool :=
  match body s with
  | (s', inr k) => (s', k)
  | (s', inl e) => (set_updated_at now (set_error (Some e) (set_status Failed s')), false)
  end.

(** Segment 0: lookup, entry guard, [status = "running"]. *)
Definition start_segment (podcast_id : string) (now : nat) (st : store) : store * bool :=
  match st !! podcast_id with
  | None => (st, false)
  | Some s =>
      if is_terminal s.(status) then (st, false)
      else
        let '(s', k) := try_except (modify (set_status Running);;
                                    modify (set_updated_at now);; mret true) now s in
        (<[podcast_id := s']> st, k)
  end.

(** Segment [i >= 1]: resumes on the job object the coroutine holds. *)
Definition resume_segment (podcast_id : string) (i : nat) (m : materials)
    (synth : string -> option string) (now : nat) (st : store) : store * bool :=
  match st !! podcast_id with
  | None => (st, false)
  | Some s =>
      let '(s', k) := try_except (segment podcast_id i m synth now) now s in
      (<[podcast_id := s']> st, k)
  end.

(* ------------------------------------------------------------------ *)
(** ** Control API and startup reconciliation *)

Record PodcastCreateRequest := {
  req_title : string;
  req_description : option string;
  req_voice : option string;
  req_script : option string;
  req_source_urls : list string;
  req_materials_set : option string
}.

(** The object built by [create_podcast] (lines 375-385). *)
Definition create_state (podcast_id : string) (p : PodcastCreateRequest) (now : nat) : _State :=
  mkState podcast_id p.(req_title) p.(req_description) p.(req_voice) p.(req_script)
    p.(req_source_urls) Queued 0 None None now now p.(req_materials_set).

(** [cancel_or_delete_podcast] (lines 418-439); [None] is the 404. *)
Definition cancel_or_delete_podcast (podcast_id : string) (now : nat) (st : store)
    : store * option _State :=
  match st !! podcast_id with
  | None => (st, None)
  | Some s =>
      match s.(status) with
      | Done | Failed => (delete podcast_id st, Some s)
      | _ =>
          let s' := set_updated_at now (set_status Cancelled s) in
          (<[podcast_id := s']> st, Some s')
      end
  end.

(** The record [_bootstrap_from_storage] makes for [<stem>.mp3]. *)
Definition bootstrap_state (stem : string) (mtime : nat) : _State :=
  mkState stem ("Episode " ++ stem) None None None [] Done 10
    (Some ("/media/audio/" ++ stem ++ ".mp3")) None mtime mtime None.

(** [_bootstrap_from_storage] (lines 197-234) over the [.mp3] files found,
    each given by its stem and modification time; returns [added]. *)
Fixpoint bootstrap_from_storage (files : list (string * nat)) (st : store)
    : store * nat :=
  match files with
  | [] => (st, 0)
  | (stem, mtime) :: rest =>
      match st !! stem with
      | Some _ => bootstrap_from_storage rest st
      | None =>
          let '(st', n) := bootstrap_from_storage rest (<[stem := bootstrap_state stem mtime]> st) in
          (st', S n)
      end
  end.

(* ------------------------------------------------------------------ *)
(** ** The process: store plus pending background coroutines

    A coroutine is [(podcast_id, pc)]: [pc = 0] has not started yet,
    [pc = i >= 1] is suspended at the [await] before iteration [i].
    The event loop may run any of them, or any request handler, next. *)

Record world := W { w_store : store; w_tasks : list (string * nat) }.

Inductive step : world -> world -> Prop :=
  | step_create pid p now st ts :
      st !! pid = None ->
      step (W st ts) (W (<[pid := create_state pid p now]> st) (ts ++ [(pid, 0)]))
  | step_start pid now st ts1 ts2 :
      step (W st (ts1 ++ (pid, 0) :: ts2))
           (W (fst (start_segment pid now st))
              (ts1 ++ (if snd (start_segment pid now st) then [(pid, 1)] else []) ++ ts2))
  | step_resume pid i m synth now st ts1 ts2 :
      step (W st (ts1 ++ (pid, S i) :: ts2))
           (W (fst (resume_segment pid (S i) m synth now st))
              (ts1 ++ (if snd (resume_segment pid (S i) m synth now st)
                       then [(pid, S (S i))] else []) ++ ts2))
  | step_cancel pid now st ts :
      step (W st ts) (W (fst (cancel_or_delete_podcast pid now st)) ts)
  | step_bootstrap files st ts :
      step (W st ts) (W (fst (bootstrap_from_storage files st)) ts).

Definition init : world := W ∅ [].

Definition reachable (w : world) : Prop := rtc step init w.

(* ------------------------------------------------------------------ *)
(** ** The readability filter (openai_service.py lines 12-22 and 133-143)

    Here a Rocq [string] stands for a Python [str] whose code points are all
    below 256 (Latin-1), one [ascii] per code point, so [str.isspace] and
    [str.isalpha] are exact on it. *)

(** [str.isspace] on code points 0-255. *)
Definition is_space (c : ascii) : bool :=
  let n := nat_of_ascii c in
  (((9 <=? n) && (n <=? 13)) || ((28 <=? n) && (n <=? 32)) ||
  (n =? 133) || (n =? 160))%nat.

(** [str.isalpha] on code points 0-255 (the Latin-1 letters). *)
Definition is_alpha (c : ascii) : bool :=
  let n := nat_of_ascii c in
  (((65 <=? n) && (n <=? 90)) || ((97 <=? n) && (n <=? 122)) ||
  (n =? 170) || (n =? 181) || (n =? 186) ||
  ((192 <=? n) && (n <=? 214)) || ((216 <=? n) && (n <=? 246)) ||
  ((248 <=? n) && (n <=? 255)))%nat.

Fixpoint drop_while (p : ascii -> bool) (l : list ascii) : list ascii :=
  match l with
  | [] => []
  | c :: r => if p c then drop_while p r else l
  end.

(** [s.strip()] *)
Definition strip (s : string) : string :=
  string_of_list_ascii
    (rev (drop_while is_space (rev (drop_while is_space (list_ascii_of_string s))))).

(** [tok in s] *)
Fixpoint contains (tok s : string) : bool :=
  String.prefix tok s ||
  match s with
  | EmptyString => false
  | String _ r => contains tok r
  end.

(** [sum(ch.isalpha() for ch in s)] *)
Definition letters (s : string) : nat :=
  length (List.filter is_alpha (list_ascii_of_string s)).

(** A Python [int] as a [float] (exact below 2^53). *)
Definition float_of_nat (n : nat) : float :=
  PrimFloat.of_uint63 (Uint63.of_Z (Z.of_nat n)).

(** The double nearest to [0.55]. *)
Definition f0_55 : float := 0x1.199999999999ap-1%float.

Definition markers : list string := ["http://"; "https://"; "www."; "@"; "#"; "__"].

Definition _readable_sentence (s0 : string) : bool :=
  let s := strip s0 in
  if ((String.length s <? 20) || (260 <? String.length s))%nat then false
  else
    let ratio := PrimFloat.div (float_of_nat (letters s))
                               (float_of_nat (Nat.max 1 (String.length s))) in
    if PrimFloat.ltb ratio f0_55 then false
    else if existsb (fun tok => contains tok s) markers then false
    else true.

(** The copy nested in [_two_host_local_dialogue]. *)
Definition is_readable_sentence (s0 : string) : bool :=
  let s := strip s0 in
  if ((String.length s <? 20) || (260 <? String.length s))%nat then false
  else
    let ratio := PrimFloat.div (float_of_nat (letters s))
                               (float_of_nat (Nat.max 1 (String.length s))) in
    if PrimFloat.ltb ratio f0_55 then false
    else if existsb (fun token => contains token s) markers then false
    else true.

(** The filter as the spec words it, on the string it is given: length in
    [20, 260], at least 55% letters, no marker. *)
Definition readable_as_specified (s : string) : bool :=
  ((20 <=? String.length s) && (String.length s <=? 260) &&
   (11 * String.length s <=? 20 * letters s))%nat &&
  negb (existsb (fun tok => contains tok s) markers).

(* ------------------------------------------------------------------ *)
(** ** The flat materials text [_load_materials_text] (podcast.py 124-145)

    The files are given as the walk yields them, each by its base name and
    the text [_read_file_text] returned; lengths count characters. *)

Definition PER_FILE_CAP : Z := 200000.
Definition GLOBAL_CAP : Z := 500000.

Definition newline : string := String (ascii_of_nat 10) EmptyString.

(** [f"\n--- FILE: {os.path.basename(fp)} ---\n"] *)
Definition file_header (name : string) : string :=
  newline ++ "--- FILE: " ++ name ++ " ---" ++ newline.

(** [s[:n]] *)
Fixpoint str_take (n : nat) (s : string) : string :=
  match n, s with
  | 0, _ => EmptyString
  | _, EmptyString => EmptyString
  | S k, String c r => String c (str_take k r)
  end.

Definition zlen (s : string) : Z := Z.of_nat (String.length s).

(** The loop of [_load_materials_text], from a running [total]. *)
Fixpoint load_chunks (files : list (string * string)) (total : Z) : list string :=
  match files with
  | [] => []
  | (name, text) :: rest =>
      if String.eqb text "" then load_chunks rest total
      else
        let snippet := str_take (Z.to_nat PER_FILE_CAP) text in
        let header := file_header name in
        let block := header ++ snippet in
        let block :=
          if (GLOBAL_CAP <? total + zlen block)%Z then
            let remaining := Z.max 0 (GLOBAL_CAP - total) in
            if (remaining <=? zlen header)%Z then None
            else Some (header ++ str_take (Z.to_nat (remaining - zlen header)) snippet)
          else Some block in
        match block with
        | None => []
        | Some b =>
            b :: (if (GLOBAL_CAP <=? total + zlen b)%Z then []
                  else load_chunks rest (total + zlen b))
        end
  end.

Definition _load_materials_text (files : list (string * string)) : string :=
  String.concat newline (load_chunks files 0).

(* ------------------------------------------------------------------ *)
(** ** Choosing the materials directory and building the prompt
    (podcast.py lines 148-175, openai_service.py lines 203-212) *)

(** [_resolve_materials_dirs] over [settings.materials_dirs]. *)
Definition _resolve_materials_dirs (materials_dirs : list string)
    (materials_set : option string) : list string :=
  match materials_dirs with
  | [] => []
  | d0 :: rest =>
      let is2 := match materials_set with Some s => String.eqb s "2" | None => false end in
      if is2 && (2 <=? length materials_dirs)%nat then
        match rest with d1 :: _ => [d1] | [] => [d0] end
      else [d0]
  end.

(** U+2013, as its UTF-8 bytes. *)
Definition en_dash : string :=
  String (ascii_of_nat 226) (String (ascii_of_nat 128) (String (ascii_of_nat 147) EmptyString)).

Definition prompt_guide : string :=
  newline ++ "Write a complete conversational podcast script in clear US English with TWO hosts (Host A and Host B)." ++
  newline ++ "Requirements: natural dialogue, faithful to the provided notes, no invented facts, smooth transitions." ++
  newline ++ "Structure: intro, 3" ++ en_dash ++
  "6 topical segments with back-and-forth discussion, and an outro with concise takeaways." ++
  newline ++ "Aim for a substantial episode (roughly 8" ++ en_dash ++ "12 minutes of audio)." ++ newline.

(** [_build_prompt(title, description, materials_text)] *)
Definition _build_prompt (title description : option string) (materials_text : string) : string :=
  let intro := (if truthy title then "Title: " ++ default "" title ++ newline else "") ++
               (if truthy description then "Description: " ++ default "" description ++ newline
                else "") in
  let sources := newline ++ "SOURCE NOTES (from PDFs/JSON):" ++ newline ++ materials_text in
  intro ++ prompt_guide ++ sources.

(** [s[n:]] *)
Fixpoint str_drop (n : nat) (s : string) : string :=
  match n, s with
  | 0, _ => s
  | _, EmptyString => EmptyString
  | S k, String _ r => str_drop k r
  end.

(** [s.split(sep, 1)[1]] for a non-empty [sep]: the text after the first
    occurrence of [sep], [None] when [sep] does not occur (the split then
    has one part and the index raises). *)
Fixpoint split_once (sep s : string) : option string :=
  if String.prefix sep s then Some (str_drop (String.length sep) s)
  else match s with
       | EmptyString => None
       | String _ r => split_once sep r
       end.

(** The materials slice [generate_script] passes to its local builder. *)
Definition materials_slice (prompt : string) : string :=
  if contains "SOURCE NOTES" prompt then
    match split_once "SOURCE NOTES" prompt with Some r => r | None => prompt end
  else prompt.

(* ------------------------------------------------------------------ *)
(** ** Read endpoints and the manual rescan (podcast.py lines 262-280,
    351-366, 394-415, 452-456) *)

(** [state.status] as the string the API reports. *)
Definition status_str (s : Status) : string :=
  match s with
  | Queued => "queued" | Running => "running" | Done => "done"
  | Failed => "failed" | Cancelled => "cancelled"
  end.

Record PodcastStatusResponse := {
  resp_id : string;
  resp_status : string;
  resp_progress : nat;     (* tenths *)
  resp_title : string;
  resp_description : option string;
  resp_voice : option string;
  resp_audio_url : option string;
  resp_error : option string;
  resp_created_at : nat;
  resp_updated_at : nat
}.

Definition _as_status (s : _State) : PodcastStatusResponse :=
  {| resp_id := s.(id); resp_status := status_str s.(status); resp_progress := s.(progress);
     resp_title := s.(title); resp_description := s.(description); resp_voice := s.(voice);
     resp_audio_url := s.(audio_url); resp_error := s.(error);
     resp_created_at := s.(created_at); resp_updated_at := s.(updated_at) |}.


(** [get_podcast]; [None] is the 404. *)
Definition get_podcast (podcast_id : string) (st : store) : option PodcastStatusResponse :=
  match st !! podcast_id with
  | None => None
  | Some s => Some (_as_status s)
  end.

(** [if status: items = [s for s in items if s.status == status]] *)
Definition select_status (status_ : option string) (items : list _State) : list _State :=
  if truthy status_
  then List.filter (fun s => String.eqb (status_str s.(status)) (default "" status_)) items
  else items.

(** [list_podcasts] over [list(_STORE.values())]; [None] is the 422 that
    the [Query(25, ge=1, le=100)] and [Query(0, ge=0)] checks give; the
    query parameter [status] is [status_] here. *)
Definition list_podcasts (values : list _State) (limit offset : Z) (status_ : option string)
    : option (list PodcastStatusResponse * nat) :=
  if ((1 <=? limit) && (limit <=? 100) && (0 <=? offset))%Z then
    let items := select_status status_ values in
    let total := length items in
    let items := firstn (Z.to_nat limit) (skipn (Z.to_nat offset) items) in
    Some (map _as_status items, total)
  else None.

(** [rescan_storage]: [{"added": count, "total": len(_STORE)}]. *)
Definition rescan_storage (files : list (string * nat)) (st : store) : store * (nat * nat) :=
  let '(st', count) := bootstrap_from_storage files st in
  (st', (count, size st')).

(* ------------------------------------------------------------------ *)
(** ** Content pillars (openai_service.py lines 25-52 and 244-347)

    A pillar is the dict [json.load] returned; its values are [json].  An
    object keeps its pairs in order and a key read gives the value of its
    last pair, as [json.load] keeps the last of repeated keys.  Text read
    from a pillar follows the convention of the readability filter (one
    [ascii] per code point below 256); the characters above 255 that the
    composer writes itself (an em dash, an ellipsis, a right quote) are
    written as their UTF-8 bytes. *)

#[warnings="-register-all"]
Inductive json :=
  | JNull
  | JBool (b : bool)
  | JInt (z : Z)
  | JFloat (f : float)
  | JStr (s : string)
  | JList (l : list json)
  | JObj (kvs : list (string * json)).

Fixpoint dict_lookup (k : string) (kvs : list (string * json)) : option json :=
  match kvs with
  | [] => None
  | (k', v) :: rest =>
      match dict_lookup k rest with
      | Some w => Some w
      | None => if String.eqb k k' then Some v else None
      end
  end.

(** [d.get(k)]: [None] when the key is missing. *)
Definition dict_get (k : string) (kvs : list (string * json)) : json :=
  match dict_lookup k kvs with Some v => v | None => JNull end.

(** Python truthiness of a JSON value. *)
Definition py_truthy (v : json) : bool :=
  match v with
  | JNull => false
  | JBool b => b
  | JInt z => negb (Z.eqb z 0)
  | JFloat f => negb (PrimFloat.eqb f 0%float)
  | JStr s => negb (String.eqb s "")
  | JList l => match l with [] => false | _ => true end
  | JObj kvs => match kvs with [] => false | _ => true end
  end.

Definition py_type_name (v : json) : string :=
  match v with
  | JNull => "NoneType" | JBool _ => "bool" | JInt _ => "int" | JFloat _ => "float"
  | JStr _ => "str" | JList _ => "list" | JObj _ => "dict"
  end.

(** [str(exc)] of the [AttributeError] raised by [v.attr]. *)
Definition no_attribute (v : json) (attr : string) : string :=
  "'" ++ py_type_name v ++ "' object has no attribute '" ++ attr ++ "'".

Definition obind {A B} (m : outcome A) (k : A -> outcome B) : outcome B :=
  match m with Ok a => k a | Raise e => Raise e end.

(** [v.strip()] *)
Definition py_strip (v : json) : outcome string :=
  match v with JStr s => Ok (strip s) | _ => Raise (no_attribute v "strip") end.

(** [v.get(k1) or v.get(k2) or dflt], evaluated left to right with
    short-circuit; [v.get] raises when [v] is not a dict. *)
Definition py_get_or (v : json) (k1 k2 : string) (dflt : json) : outcome json :=
  match v with
  | JObj kvs =>
      let a := dict_get k1 kvs in
      if py_truthy a then Ok a
      else let b := dict_get k2 kvs in
           Ok (if py_truthy b then b else dflt)
  | _ => Raise (no_attribute v "get")
  end.

(** [f"{n}"] for an [int] [n >= 0]. *)
Definition str_of_nat (n : nat) : string := NilZero.string_of_uint (Nat.to_uint n).

Definition utf8_3 (a b c : nat) : string :=
  String (ascii_of_nat a) (String (ascii_of_nat b) (String (ascii_of_nat c) EmptyString)).
Definition em_dash : string := utf8_3 226 128 148.
Definition ellipsis : string := utf8_3 226 128 166.
Definition right_quote : string := utf8_3 226 128 153.

Definition hostA (s : string) : string := "[Host A] " ++ s.
Definition hostB (s : string) : string := "[Host B] " ++ s.

(** [str.lower] on one code point below 256. *)
Definition lower_char (c : ascii) : ascii :=
  let n := nat_of_ascii c in
  if (((65 <=? n) && (n <=? 90)) || ((192 <=? n) && (n <=? 214)) || ((216 <=? n) && (n <=? 222)))%nat
  then ascii_of_nat (n + 32) else c.

(** [s[0].lower() + s[1:] if len(s) > 1 else s] *)
Definition lower_first (s : string) : string :=
  if (1 <? String.length s)%nat then
    match s with String c r => String (lower_char c) r | EmptyString => s end
  else s.

(** The characters of [[_*/#=<>{}\\\[\]|`~^]]. *)
Definition is_symbol (c : ascii) : bool :=
  existsb (Ascii.eqb c) ["_"; "*"; "/"; "#"; "="; "<"; ">"; "{"; "}"; "\"; "["; "]"; "|"; "`"; "~"; "^"]%char.

(** [re.sub(r"<class>+", " ", t)]: every maximal run of characters of the
    class becomes one space. *)
Fixpoint sub_runs (p : ascii -> bool) (in_run : bool) (l : list ascii) : list ascii :=
  match l with
  | [] => []
  | c :: r =>
      if p c then (if in_run then sub_runs p true r else " "%char :: sub_runs p true r)
      else c :: sub_runs p false r
  end.

Definition re_sub_runs (p : ascii -> bool) (t : string) : string :=
  string_of_list_ascii (sub_runs p false (list_ascii_of_string t)).

Definition is_terminator (c : ascii) : bool :=
  Ascii.eqb c "." || Ascii.eqb c "!" || Ascii.eqb c "?".

(** [_DEF_SENT_SPLIT.split(t)] with [(?<=[.!?])\s+]: [skipping] inside a
    run that matched, [prev_term] when the previous character is one of
    [.!?]; [cur] is the current part, reversed. *)
Fixpoint sent_split_aux (skipping prev_term : bool) (cur : list ascii) (l : list ascii)
    : list (list ascii) :=
  match l with
  | [] => [rev cur]
  | c :: r =>
      if skipping && is_space c then sent_split_aux true false cur r
      else if prev_term && is_space c then rev cur :: sent_split_aux true false [] r
      else sent_split_aux false (is_terminator c) (c :: cur) r
  end.

Definition sent_split (t : string) : list string :=
  map string_of_list_ascii (sent_split_aux false false [] (list_ascii_of_string t)).

(** The body of the loop over the chunks, for one chunk text [t]. *)
Definition chunk_sentences (t0 : string) : list string :=
  let t := strip (re_sub_runs is_space (re_sub_runs is_symbol t0)) in
  if String.eqb t "" then []
  else
    let sentences := map strip (List.filter (fun s => negb (String.eqb (strip s) ""))
                                            (sent_split t)) in
    List.filter _readable_sentence sentences.

(** [ch.get("text") if isinstance(ch, dict) else None], kept when it is a
    non-empty [str]. *)
Definition chunk_text (ch : json) : option string :=
  match ch with
  | JObj kvs => match dict_get "text" kvs with
                | JStr t => if String.eqb t "" then None else Some t
                | _ => None
                end
  | _ => None
  end.

(** [chunks = pillar["chunks"]] or [pillar["output"]["chunks"]] when a list. *)
Definition pillar_chunks (pillar : list (string * json)) : list json :=
  match dict_lookup "chunks" pillar with
  | Some (JList l) => l
  | _ =>
      match dict_lookup "output" pillar with
      | Some (JObj o) => match dict_get "chunks" o with JList l => l | _ => [] end
      | _ => []
      end
  end.

Definition _extract_sentences_from_chunks (pillar : list (string * json)) : list string :=
  concat (map (fun ch => match chunk_text ch with
                         | Some t => chunk_sentences t
                         | None => []
                         end) (pillar_chunks pillar)).

(** [for j, s in enumerate(window)] of the chunked fallback. *)
Fixpoint window_lines (i j : nat) (window : list string) : list string :=
  match window with
  | [] => []
  | s :: rest =>
      let speaker := if ((i + j) mod 2 =? 0)%nat then hostA else hostB in
      let spoken := match j with
                    | 0 => "Key point: " ++ s
                    | 1 => "Put simply, " ++ lower_first s
                    | _ => s
                    end in
      speaker spoken :: window_lines i (S j) rest
  end.

Definition checkpoint_line : string :=
  "Quick checkpoint: we" ++ right_quote ++ "re moving in order and summarizing concisely.".

(** [while i < len(sents)] of the chunked fallback, with [fuel] bounding
    the number of iterations. *)
Fixpoint chunk_loop (fuel : nat) (sents : list string) (seg i : nat) : list string :=
  match fuel with
  | 0 => []
  | S fuel' =>
      if (i <? length sents)%nat then
        match firstn 7 (skipn i sents) with
        | [] => []
        | (w0 :: _) as window =>
            let title_line :=
              if (90 <? String.length w0)%nat then str_take 87 w0 ++ ellipsis else w0 in
            let seg' := S seg in
            let i' := (i + Nat.max 5 (Nat.min 7 (length window)))%nat in
            ([hostA ("Segment " ++ str_of_nat seg ++ ": " ++ title_line)] ++
            window_lines i 0 window ++
            (if (seg' mod 4 =? 0)%nat then [hostB checkpoint_line] else []) ++
            chunk_loop fuel' sents seg' i')%list
        end
      else []
  end.

(** The chunked fallback: at most [MAX_SENTS = 180] sentences; every
    iteration moves [i] forward by at least 5, so [length sents] iterations
    are enough. *)
Definition chunk_fallback (sents0 : list string) : list string :=
  match sents0 with
  | [] => [hostB "We received limited structured notes, so this will be a brief overview."]
  | _ => let sents := firstn 180 sents0 in chunk_loop (length sents) sents 1 0
  end.

Fixpoint subtopic_lines (s_idx : nat) (subs : list json) : outcome (list string) :=
  match subs with
  | [] => Ok []
  | sub :: rest =>
      obind (obind (py_get_or sub "name" "title" (JStr ("Key point " ++ str_of_nat s_idx))) py_strip)
        (fun s_name =>
      obind (obind (py_get_or sub "summary" "notes" (JStr "")) py_strip) (fun s_sum =>
      obind (subtopic_lines (S s_idx) rest) (fun ls =>
      Ok ([hostA (em_dash ++ " " ++ s_name ++ ".")] ++
          (if String.eqb s_sum "" then [] else [hostB ("In short: " ++ s_sum)]) ++ ls)%list)))
  end.

Definition recap_line : string :=
  "Quick recap so far: we are following the pillar structure and keeping close to its summaries.".

Fixpoint topic_lines (t_idx : nat) (topics : list json) : outcome (list string) :=
  match topics with
  | [] => Ok []
  | topic :: rest =>
      obind (obind (py_get_or topic "name" "title" (JStr ("Topic " ++ str_of_nat t_idx))) py_strip)
        (fun t_name =>
      obind (obind (py_get_or topic "summary" "overview" (JStr "")) py_strip) (fun t_sum =>
      let head := ([hostA ("Segment " ++ str_of_nat t_idx ++ ": " ++ t_name)] ++
                   (if String.eqb t_sum "" then [] else [hostB ("Big picture: " ++ t_sum)]))%list in
      obind (py_get_or topic "subtopics" "items" (JList [])) (fun subs =>
      obind (match subs with
             | JList l =>
                 obind (subtopic_lines 1 l) (fun ls =>
                   Ok (ls ++ (if (t_idx mod 3 =? 0)%nat then [hostB recap_line] else []))%list)
             | _ => Ok []
             end) (fun body =>
      obind (topic_lines (S t_idx) rest) (fun more =>
      Ok (head ++ body ++ more)%list)))))
  end.

Definition _two_host_local_from_pillar (pillar : list (string * json)) : outcome string :=
  let title0 := if py_truthy (dict_get "title" pillar) then dict_get "title" pillar
                else if py_truthy (dict_get "document_title" pillar)
                     then dict_get "document_title" pillar else JStr "the document" in
  obind (py_strip title0) (fun title =>
  let topics := if py_truthy (dict_get "topics" pillar) then dict_get "topics" pillar
                else if py_truthy (dict_get "sections" pillar) then dict_get "sections" pillar
                else JList [] in
  let intro := [hostA "Welcome to the podcast.";
                hostB ("Today we dive into " ++ title ++ ", using the provided content as our guide.");
                hostA "We will move topic by topic and keep the language clear and practical."] in
  obind (match topics with
         | JList ((_ :: _) as l) => topic_lines 1 l
         | _ => Ok (chunk_fallback (_extract_sentences_from_chunks pillar))
         end) (fun body =>
  Ok (String.concat newline
        (intro ++ body ++
         [hostA "That wraps up our walkthrough of the content pillar.";
          hostB "For full context, review the original documents alongside these notes. Thanks for listening."])%list))).


(* ------------------------------------------------------------------ *)
(** ** The local dialogue builder [_two_host_local_dialogue]
    (openai_service.py lines 78-200) and [generate_script] (203-241) *)

(** [s.replace(a, b)] for one-character [a] and [b]. *)
Definition replace_char (a b : ascii) (s : string) : string :=
  string_of_list_ascii (map (fun c => if Ascii.eqb c a then b else c) (list_ascii_of_string s)).

(** The line boundaries of [str.splitlines] below 256:
    \n \v \f \r \x1c \x1d \x1e \x85, with \r\n counted once. *)
Definition is_line_break (c : ascii) : bool :=
  let n := nat_of_ascii c in
  ((10 <=? n) && (n <=? 13) || (28 <=? n) && (n <=? 30) || (n =? 133))%nat.

Fixpoint splitlines_aux (cur : list ascii) (l : list ascii) : list string :=
  match l with
  | [] => match cur with [] => [] | _ => [string_of_list_ascii (rev cur)] end
  | c :: r =>
      if is_line_break c then
        string_of_list_ascii (rev cur) ::
        match r with
        | d :: r' =>
            if Ascii.eqb c (ascii_of_nat 13) && Ascii.eqb d (ascii_of_nat 10)
            then splitlines_aux [] r' else splitlines_aux [] r
        | [] => splitlines_aux [] r
        end
      else splitlines_aux (c :: cur) r
  end.

(** [s.splitlines()] *)
Definition splitlines (s : string) : list string := splitlines_aux [] (list_ascii_of_string s).

(** [s.lower()] *)
Definition lower_str (s : string) : string :=
  string_of_list_ascii (map lower_char (list_ascii_of_string s)).

Definition skip_prefixes : list string := ["--- file:"; "page "; "json:"].

(** [low.startswith(skip_prefixes) or ln in {"{", "}", "[", "]"}] *)
Definition is_separator_line (ln : string) : bool :=
  existsb (fun p => String.prefix p (lower_str ln)) skip_prefixes ||
  existsb (String.eqb ln) ["{"; "}"; "["; "]"].

(** The loop building [content_lines] from the stripped lines. *)
Definition content_lines (raw_lines : list string) : list string :=
  flat_map (fun ln => if String.eqb ln "" then [""]
                      else if is_separator_line ln then [] else [ln]) raw_lines.

(** [s.rstrip()] *)
Definition rstrip (s : string) : string :=
  string_of_list_ascii (rev (drop_while is_space (rev (list_ascii_of_string s)))).

(** [s.endswith((".", "!", "?"))] *)
Definition ends_with_terminator (s : string) : bool :=
  match rev (list_ascii_of_string s) with c :: _ => is_terminator c | [] => false end.

(** [flush_buf()]: the paragraphs after it (the buffer is empty after it). *)
Definition flush_buf (buf paragraphs : list string) : list string :=
  match buf with
  | [] => paragraphs
  | _ => let paragraph := strip (String.concat " " buf) in
         if String.eqb paragraph "" then paragraphs else (paragraphs ++ [paragraph])%list
  end.

(** [for ln in content_lines: ...] then the final [flush_buf()]. *)
Fixpoint paragraphs_loop (buf paragraphs : list string) (lines : list string) : list string :=
  match lines with
  | [] => flush_buf buf paragraphs
  | ln :: rest =>
      if String.eqb ln "" then paragraphs_loop [] (flush_buf buf paragraphs) rest
      else
        let buf' := (buf ++ [ln])%list in
        let joined := String.concat " " buf' in
        if ((220 <=? String.length joined)%nat && ends_with_terminator (rstrip joined))
        then paragraphs_loop [] (flush_buf buf' paragraphs) rest
        else paragraphs_loop buf' paragraphs rest
  end.

Fixpoint split_ws_aux (cur : list ascii) (l : list ascii) : list string :=
  match l with
  | [] => match cur with [] => [] | _ => [string_of_list_ascii (rev cur)] end
  | c :: r =>
      if is_space c then
        match cur with
        | [] => split_ws_aux [] r
        | _ => string_of_list_ascii (rev cur) :: split_ws_aux [] r
        end
      else split_ws_aux (c :: cur) r
  end.

(** [s.split()] *)
Definition split_ws (s : string) : list string := split_ws_aux [] (list_ascii_of_string s).

(** The paragraphs of the materials text, with the fallback to one
    paragraph holding every non-empty content line. *)
Definition dialogue_paragraphs (materials_text : string) : list string :=
  let text := replace_char (ascii_of_nat 13) (ascii_of_nat 10) materials_text in
  let raw_lines := map strip (splitlines text) in
  let cl := content_lines raw_lines in
  match paragraphs_loop [] [] cl with
  | [] => [strip (String.concat " " (List.filter (fun ln => negb (String.eqb ln "")) cl))]
  | ps => ps
  end.

(** [readable] of one paragraph. *)
Definition readable_of (para : string) : list string :=
  let p := String.concat " " (split_ws para) in
  let sentences := map strip (List.filter (fun s => negb (String.eqb (strip s) "")) (sent_split p)) in
  List.filter is_readable_sentence sentences.

Definition recap_line_materials : string :=
  "Quick recap so far: we are staying close to the source text and moving in order.".

(** [for para in paragraphs: ...] *)
Fixpoint dialogue_segments (seg_idx line_counter : nat) (paras : list string) : list string :=
  match paras with
  | [] => []
  | para :: rest =>
      match readable_of para with
      | [] => dialogue_segments seg_idx line_counter rest
      | (title :: _) as readable =>
          let title' := if (90 <? String.length title)%nat then str_take 87 title ++ ellipsis else title in
          let seg' := S seg_idx in
          let spoken := firstn 5 readable in
          ([hostA ("Segment " ++ str_of_nat seg_idx ++ ": " ++ title')] ++
           window_lines line_counter 0 spoken ++
           (if (seg' mod 6 =? 0)%nat then [hostB recap_line_materials] else []) ++
           dialogue_segments seg' (line_counter + length spoken) rest)%list
      end
  end.

Definition dialogue_intro : list string :=
  [hostA "Welcome to the podcast.";
   hostB "In this episode, we will walk through the provided materials in clear English and connect the ideas step by step."].

Definition dialogue_outro : list string :=
  [hostA ("That brings us to the end of today" ++ right_quote ++ "s walkthrough.");
   hostB "For full context, review the original materials alongside this episode. Thanks for listening."].

Definition _two_host_local_dialogue (materials_text : string) : string :=
  String.concat newline
    (dialogue_intro ++ dialogue_segments 1 0 (dialogue_paragraphs materials_text) ++ dialogue_outro)%list.

(** [generate_script]: [api] is the reply of the chat-completion call,
    [None] when no client is configured, [Some (Ok c)] with the message
    content ([""] when there is no choice or no content), [Some (Raise e)]
    when the call raises. *)
Definition generate_script (api : option (outcome string)) (prompt : string) : string :=
  let materials_text := materials_slice prompt in
  match api with
  | None => _two_host_local_dialogue materials_text
  | Some (Ok content) =>
      if String.eqb content "" then _two_host_local_dialogue materials_text else content
  | Some (Raise _) => _two_host_local_dialogue materials_text
  end.

(* ------------------------------------------------------------------ *)
(** ** [clean_for_tts] (tts_service.py lines 6-42)

    Text is taken as code points below 256, one [ascii] each. On such text
    the class [[•·]] of line 37 can only meet [·] (code point 183). Under
    [re.I] the ASCII letters of the patterns and [[A-Z]] match the two ASCII
    cases only: no other code point below 256 folds to them. *)

(** [\w] on code points 0-255: the letters, the digits and other numerics
    (² ³ ¹ ¼ ½ ¾), and [_]. *)
Definition is_word_char (c : ascii) : bool :=
  let n := nat_of_ascii c in
  (is_alpha c || ((48 <=? n) && (n <=? 57)) || (n =? 95) || (n =? 178) || (n =? 179) ||
   (n =? 185) || ((188 <=? n) && (n <=? 190)))%nat.

Definition is_ascii_letter (c : ascii) : bool :=
  let n := nat_of_ascii c in
  (((65 <=? n) && (n <=? 90)) || ((97 <=? n) && (n <=? 122)))%nat.

Definition not_space (c : ascii) : bool := negb (is_space c).

(** One [re.sub] pass of a pattern that never matches the empty string.
    Scanning left to right, [m prev l] tries the pattern at the start of [l]
    ([prev] is the character before, for [^] and [\b]) and gives the text
    after the match; the match becomes [repl] and the scan goes on after it,
    [skip] counting the matched characters still to pass over. *)
Fixpoint sub_aux (m : option ascii -> list ascii -> option (list ascii)) (repl : list ascii)
    (prev : option ascii) (skip : nat) (l : list ascii) : list ascii :=
  match l with
  | [] => []
  | c :: r =>
      match skip with
      | S k => sub_aux m repl (Some c) k r
      | O =>
          match m prev l with
          | Some rest => (repl ++ sub_aux m repl (Some c) (length l - length rest - 1) r)%list
          | None => c :: sub_aux m repl (Some c) 0 r
          end
      end
  end.

(** [pattern.sub(repl, s)] *)
Definition re_sub (m : option ascii -> list ascii -> option (list ascii)) (repl s : string) : string :=
  string_of_list_ascii (sub_aux m (list_ascii_of_string repl) None 0 (list_ascii_of_string s)).

(** A literal under [re.I]: [pat] is written in lower case. *)
Fixpoint ci_prefix (pat : list ascii) (l : list ascii) : option (list ascii) :=
  match pat, l with
  | [], _ => Some l
  | p :: ps, c :: r => if Ascii.eqb (lower_char c) p then ci_prefix ps r else None
  | _ :: _, [] => None
  end.

(** [(?:Host|Speaker)] under [re.I] *)
Definition host_or_speaker (l : list ascii) : option (list ascii) :=
  match ci_prefix (list_ascii_of_string "host") l with
  | Some r => Some r
  | None => ci_prefix (list_ascii_of_string "speaker") l
  end.

(** [_LABEL_RE = \[(?:Host|Speaker)\s*[A-Z]\]\s*] with [re.I]. [\s*] and
    [[A-Z]] share no character, so the greedy [\s*] never gives back. *)
Definition label_match (_ : option ascii) (l : list ascii) : option (list ascii) :=
  match l with
  | c :: r =>
      if Ascii.eqb c "[" then
        match host_or_speaker r with
        | Some r1 =>
            match drop_while is_space r1 with
            | x :: y :: r2 =>
                if is_ascii_letter x && Ascii.eqb y "]" then Some (drop_while is_space r2) else None
            | _ => None
            end
        | None => None
        end
      else None
  | [] => None
  end.

(** [_COLON_LABEL_RE = ^(?:Host|Speaker)\s*[A-Z]\s*:\s*] with [re.I | re.M]:
    [^] holds at the start and after a newline. *)
Definition colon_label_match (prev : option ascii) (l : list ascii) : option (list ascii) :=
  if match prev with None => true | Some p => Ascii.eqb p (ascii_of_nat 10) end then
    match host_or_speaker l with
    | Some r1 =>
        match drop_while is_space r1 with
        | x :: r2 =>
            if is_ascii_letter x then
              match drop_while is_space r2 with
              | y :: r3 => if Ascii.eqb y ":" then Some (drop_while is_space r3) else None
              | [] => None
              end
            else None
        | [] => None
        end
    | None => None
    end
  else None.

(** [\S+], greedy *)
Definition nonspace_run (l : list ascii) : option (list ascii) :=
  match l with
  | c :: _ => if is_space c then None else Some (drop_while not_space l)
  | [] => None
  end.

(** [_URL_RE = https?://\S+|www\.\S+] with [re.I]; [s?] tries one [s]
    first, then none. *)
Definition url_match (_ : option ascii) (l : list ascii) : option (list ascii) :=
  let www := match ci_prefix (list_ascii_of_string "www.") l with
             | Some r => nonspace_run r
             | None => None
             end in
  match ci_prefix (list_ascii_of_string "http") l with
  | Some r =>
      match match ci_prefix (list_ascii_of_string "s://") r with
            | Some r2 => Some r2
            | None => ci_prefix (list_ascii_of_string "://") r
            end with
      | Some r2 => match nonspace_run r2 with Some r3 => Some r3 | None => www end
      | None => www
      end
  | None => www
  end.

Fixpoint first_some {A} (f : nat -> option A) (ns : list nat) : option A :=
  match ns with
  | [] => None
  | n :: ns' => match f n with Some a => Some a | None => first_some f ns' end
  end.

(** [_EMAIL_RE = \b\S+@\S+\b]. With [e] the length of the run of non-space
    characters at the start, the greedy first [\S+] puts the [@] at the last
    possible index [a] first, then earlier ones; for each, the greedy second
    [\S+] ends at [e] first, then earlier, down to [a + 2]; the first end [k]
    at a word boundary is the match. *)
Definition email_match (prev : option ascii) (l : list ascii) : option (list ascii) :=
  let word_at k := match nth_error l k with Some c => is_word_char c | None => false end in
  let boundary k := xorb (word_at (k - 1)) (word_at k) in
  let e := length l - length (drop_while not_space l) in
  if xorb (match prev with Some p => is_word_char p | None => false end) (word_at 0) then
    first_some (fun a =>
      match nth_error l a with
      | Some c =>
          if Ascii.eqb c "@" then
            first_some (fun k => if boundary k then Some (skipn k l) else None)
              (rev (seq (a + 2) (e - a - 1)))
          else None
      | None => None
      end) (rev (seq 1 (e - 1)))
  else None.

(** [-\s*\n\s*]: the greedy [\s*] takes the whole run of white space after
    the [-] and gives back up to its last newline, which the last [\s*]
    follows to the end of the run: a match is the [-] and the whole run,
    when the run holds a newline. *)
Definition dehyphen_match (_ : option ascii) (l : list ascii) : option (list ascii) :=
  match l with
  | c :: r =>
      if Ascii.eqb c "-" then
        let run := firstn (length r - length (drop_while is_space r)) r in
        if existsb (fun x => Ascii.eqb x (ascii_of_nat 10)) run
        then Some (drop_while is_space r) else None
      else None
  | [] => None
  end.

(** [[•·]\s*] *)
Definition bullet_match (_ : option ascii) (l : list ascii) : option (list ascii) :=
  match l with
  | c :: r => if (nat_of_ascii c =? 183)%nat then Some (drop_while is_space r) else None
  | [] => None
  end.

Definition clean_for_tts (text : string) : string :=
  let text := re_sub label_match "" text in
  let text := re_sub colon_label_match "" text in
  let text := re_sub url_match "" text in
  let text := re_sub email_match "" text in
  let text := re_sub dehyphen_match "" text in
  let text := re_sub_runs is_symbol text in
  let text := re_sub bullet_match ", " text in
  strip (re_sub_runs is_space text).

(* ------------------------------------------------------------------ *)
(** ** [_load_content_pillar] and [_iter_material_files]
    (podcast.py lines 33-88), over the file system given as functions. *)

(** [s.endswith(suf)] *)
Definition ends_with (suf s : string) : bool :=
  let n := String.length s in
  let k := String.length suf in
  ((k <=? n)%nat && String.eqb (substring (n - k) k s) suf).

Section MaterialFiles.

(** [walk base]: the pairs [(root, name)], in order, of the files
    [os.walk(os.path.abspath(base))] lists; [None] when
    [os.path.exists(os.path.abspath(base))] is false. *)
Variable walk : string -> option (list (string * string)).
(** [os.path.join] *)
Variable join : string -> string -> string.
(** [json.load] of the file at a path, opened as UTF-8 with
    [errors="ignore"]; [None] when opening or parsing raises. *)
Variable load_json : string -> option json.

(** The files of the non-empty, existing [dirs], in the order of the loops. *)
Definition walk_files (dirs : list string) : list (string * string) :=
  flat_map (fun base =>
    if String.eqb base "" then []
    else match walk base with Some files => files | None => [] end) dirs.

Definition _iter_material_files (dirs : list string) : list string :=
  map (fun '(root, name) => join root name)
    (List.filter (fun '(_, name) =>
       let l := lower_str name in
       ends_with ".txt" l || ends_with ".md" l || ends_with ".json" l || ends_with ".pdf" l)
     (walk_files dirs)).

(** The first loop of [_load_content_pillar]. *)
Definition pillar_named (dirs : list string) : list string :=
  map (fun '(root, name) => join root name)
    (List.filter (fun '(_, name) =>
       let lower := lower_str name in
       ends_with ".json" lower && (contains "content_pillar" lower || contains "pillar" lower))
     (walk_files dirs)).

(** The unwrapping of ["output"] and the test of lines 60-72. *)
Definition accept_pillar (data : json) : option json :=
  let inner := match data with
               | JObj kvs =>
                   match dict_lookup "output" kvs with
                   | Some (JObj o) => JObj o
                   | _ => data
                   end
               | _ => data
               end in
  match inner with
  | JObj kvs =>
      match dict_lookup "topics" kvs, dict_lookup "sections" kvs, dict_lookup "chunks" kvs with
      | None, None, None => None
      | _, _, _ => Some inner
      end
  | _ => None
  end.

(** The last loop: the first candidate that loads and is accepted;
    a raising [open] or [json.load] moves on to the next one. *)
Fixpoint try_candidates (candidates : list string) : option json :=
  match candidates with
  | [] => None
  | fp :: rest =>
      match load_json fp with
      | Some data =>
          match accept_pillar data with
          | Some inner => Some inner
          | None => try_candidates rest
          end
      | None => try_candidates rest
      end
  end.

Definition _load_content_pillar (dirs : list string) : option json :=
  let candidates :=
    match pillar_named dirs with
    | [] => List.filter (fun fp => ends_with ".json" (lower_str fp)) (_iter_material_files dirs)
    | cs => cs
    end in
  try_candidates candidates.

End MaterialFiles.

(** Helpers of the statements below. *)

Definition no_newline (sep : string) : Prop :=
  forall c, In c (list_ascii_of_string sep) -> c <> ascii_of_nat 10.

(** Helpers of the statements about content pillars. *)

Definition is_infix {A} (l1 l2 : list A) : Prop := exists k1 k2, l2 = (k1 ++ l1 ++ k2)%list.

Definition chunk_block (sents : list string) (k : nat) : list string :=
  let w0 := nth (7 * k) sents "" in
  ([hostA ("Segment " ++ str_of_nat (S k) ++ ": " ++
           (if (90 <? String.length w0)%nat then str_take 87 w0 ++ ellipsis else w0))] ++
   window_lines (7 * k) 0 (firstn 7 (skipn (7 * k) sents)) ++
   (if (S (S k) mod 4 =? 0)%nat then [hostB checkpoint_line] else []))%list.

Definition labelled (l : string) : Prop := exists s, l = hostA s \/ l = hostB s.

Definition demo_pillar : list (string * json) :=
  [("title", JStr " Cell biology "); ("topics", JList [JObj [("name", JStr "Cells")]])].

Definition demo_pillar_script : string :=
  Eval vm_compute in match _two_host_local_from_pillar demo_pillar with Ok s => s | Raise e => e end.

(* ------------------------------------------------------------------ *)
(** File systems of the statements about [_load_content_pillar]. *)

Definition shadow_walk (b : string) : option (list (string * string)) :=
  if String.eqb b "materials" then Some [("/srv/materials", "Pillar.json"); ("/srv/materials", "notes.json")] else None.

Definition shadow_join (r n : string) : string := r ++ "/" ++ n.

Definition shadow_load (p : string) : option json :=
  if String.eqb p "/srv/materials/notes.json" then Some (JObj [("topics", JList [JObj [("title", JStr "Cells")]])])
  else None.



(** ** Properties stated over the model *)

(** The edges of the job state machine of the spec (section 4.4). *)
Definition allowed_edge (a b : Status) : bool :=
  match a, b with
  | Queued, Running | Running, Done | Running, Failed
  | Queued, Cancelled | Running, Cancelled => true
  | _, _ => false
  end.

(** Every step of a reachable process moves each job's status along an
    allowed edge (or keeps it), and leaves a cancelled job cancelled with
    its progress untouched. *)
Definition status_edges_respected : Prop :=
  forall w w' pid j j',
    reachable w -> step w w' ->
    w_store w !! pid = Some j -> w_store w' !! pid = Some j' ->
    (status j = status j' \/ allowed_edge (status j) (status j') = true) /\
    (status j = Cancelled -> status j' = Cancelled /\ progress j' = progress j).

(** A concrete run: create, start, cancel while suspended, then resume. *)
Definition demo_request : PodcastCreateRequest :=
  {| req_title := "Demo"; req_description := None; req_voice := None;
     req_script := None; req_source_urls := []; req_materials_set := None |}.

Definition no_tts_error : string -> option string := fun _ => None.

Definition run_s1 : store := <[ "job1" := create_state "job1" demo_request 1 ]> ∅.
Definition run_s2 : store := Eval vm_compute in fst (start_segment "job1" 2 run_s1).
Definition run_s3 : store := Eval vm_compute in fst (cancel_or_delete_podcast "job1" 3 run_s2).
Definition run_s4 : store :=
  Eval vm_compute in fst (resume_segment "job1" 1 NoMaterials no_tts_error 4 run_s3).
Definition run_s5 : store :=
  Eval vm_compute in fst (resume_segment "job1" 2 NoMaterials no_tts_error 5 run_s4).
Definition run_s6 : store :=
  Eval vm_compute in fst (resume_segment "job1" 3 NoMaterials no_tts_error 6 run_s5).

Definition run_w1 : world := W run_s1 [("job1", 0)].
Definition run_w2 : world := W run_s2 [("job1", 1)].
Definition run_w3 : world := W run_s3 [("job1", 1)].
Definition run_w4 : world := W run_s4 [("job1", 2)].
Definition run_w5 : world := W run_s5 [("job1", 3)].
Definition run_w6 : world := W run_s6 [].

Definition witness_values : list _State :=
  [create_state "a" demo_request 1; set_status Cancelled (create_state "b" demo_request 2)].

Lemma run_step1 : step init run_w1.
Proof. exact (step_create "job1" demo_request 1 ∅ [] eq_refl). Qed.

Lemma run_step2 : step run_w1 run_w2.
Proof. exact (step_start "job1" 2 run_s1 [] []). Qed.

Lemma run_step3 : step run_w2 run_w3.
Proof. exact (step_cancel "job1" 3 run_s2 [("job1", 1)]). Qed.

Lemma run_step4 : step run_w3 run_w4.
Proof. exact (step_resume "job1" 0 NoMaterials no_tts_error 4 run_s3 [] []). Qed.

Lemma run_step5 : step run_w4 run_w5.
Proof. exact (step_resume "job1" 1 NoMaterials no_tts_error 5 run_s4 [] []). Qed.

Lemma run_step6 : step run_w5 run_w6.
Proof. exact (step_resume "job1" 2 NoMaterials no_tts_error 6 run_s5 [] []). Qed.

Lemma run_w5_reachable : reachable run_w5.
Proof.
  unfold reachable.
  eapply rtc_l; [apply run_step1|]. eapply rtc_l; [apply run_step2|].
  eapply rtc_l; [apply run_step3|]. eapply rtc_l; [apply run_step4|].
  eapply rtc_l; [apply run_step5|]. apply rtc_refl.
Qed.

(** Claim C1 (code_bug).  After a cancel lands while the orchestrator is
    suspended at an [await], the resumed checkpoints keep writing progress
    to the cancelled job and the last one sets it to [done]: the status
    goes cancelled -> done, so the status edges are not respected. *)
Theorem cancelled_job_resumed_to_done :
  reachable run_w5 /\ step run_w5 run_w6 /\
  (exists j, w_store run_w3 !! "job1" = Some j /\ status j = Cancelled /\ progress j = 0) /\
  (exists j, w_store run_w4 !! "job1" = Some j /\ status j = Cancelled /\ progress j = 1) /\
  (exists j, w_store run_w5 !! "job1" = Some j /\ status j = Cancelled /\ progress j = 2) /\
  (exists j, w_store run_w6 !! "job1" = Some j /\ status j = Done /\ progress j = 10) /\
  ~ status_edges_respected.
Proof.
  pose proof run_step6 as Hstep.
  split; [apply run_w5_reachable|]. split; [exact Hstep|].
  split; [eexists; split; [vm_compute; reflexivity | split; reflexivity]|].
  split; [eexists; split; [vm_compute; reflexivity | split; reflexivity]|].
  split; [eexists; split; [vm_compute; reflexivity | split; reflexivity]|].
  split; [eexists; split; [vm_compute; reflexivity | split; reflexivity]|].
  intros H.
  edestruct (H run_w5 run_w6 "job1") as [_ Hc];
    [apply run_w5_reachable | exact Hstep | vm_compute; reflexivity
    | vm_compute; reflexivity |].
  destruct (Hc eq_refl) as [Hs _]. discriminate Hs.
Qed.

(* ------------------------------------------------------------------ *)
(** ** The store invariant: [audio_url] iff done, [error] iff failed *)

Definition consistent (j : _State) : bool :=
  Bool.eqb (bool_decide (is_Some j.(audio_url))) (bool_decide (j.(status) = Done)) &&
  Bool.eqb (bool_decide (is_Some j.(error))) (bool_decide (j.(status) = Failed)).

(** A pending coroutine's job is in the store; one that has not started is
    queued or cancelled, one that is suspended is running or cancelled. *)
Definition task_ok (st : store) (t : string * nat) : Prop :=
  exists j, st !! t.1 = Some j /\
    (if Nat.eqb t.2 0 then status j = Queued \/ status j = Cancelled
     else status j = Running \/ status j = Cancelled).

Definition inv (w : world) : Prop :=
  map_Forall (fun _ j => consistent j = true) (w_store w) /\
  Forall (task_ok (w_store w)) (w_tasks w) /\
  NoDup (map fst (w_tasks w)).

Ltac run_job :=
  cbv [segment checkpoint synthesis mbind mret Job_bind Job_ret bind ret
       modify get lift try_except];
  simpl.

(** What one resumed segment does to [status], [audio_url] and [error]. *)
Lemma segment_effect pid i m synth now s :
  match segment pid i m synth now s with
  | (s', inr true) =>
      status s' = status s /\ audio_url s' = audio_url s /\ error s' = error s
  | (s', inr false) =>
      status s' = Done /\ audio_url s' = Some ("/media/audio/" ++ pid ++ ".mp3") /\
      error s' = error s
  | (s', inl _) =>
      status s' = status s /\ audio_url s' = audio_url s /\ error s' = error s
  end.
Proof.
  run_job.
  destruct (negb (truthy (script s))); simpl;
    [destruct (acquire_script m _); simpl|];
    try (destruct (Nat.ltb i 3); simpl;
         [|destruct (synth _); simpl]);
    auto.
Qed.

Lemma consistent_idle j :
  consistent j = true -> status j <> Done -> status j <> Failed ->
  audio_url j = None /\ error j = None.
Proof.
  unfold consistent. intros H Hd Hf. apply andb_true_iff in H as [Ha He].
  apply Bool.eqb_prop in Ha, He.
  rewrite (bool_decide_eq_false_2 _ Hd) in Ha.
  rewrite (bool_decide_eq_false_2 _ Hf) in He.
  apply bool_decide_eq_false in Ha, He.
  split; [destruct (audio_url j) | destruct (error j)]; auto;
    exfalso; [apply Ha | apply He]; eexists; reflexivity.
Qed.

Lemma task_ok_insert_ne st pid v t :
  t.1 <> pid -> task_ok st t -> task_ok (<[pid := v]> st) t.
Proof.
  intros Hne [j [Hl Hs]]. exists j. split; [|exact Hs].
  rewrite lookup_insert_ne; auto.
Qed.

Lemma tasks_not_in st pid ts :
  Forall (task_ok st) ts -> st !! pid = None -> pid ∉ map fst ts.
Proof.
  intros Hf Hn Hin. apply list_elem_of_fmap in Hin as [t [-> Ht]].
  rewrite Forall_forall in Hf. destruct (Hf t Ht) as [j [Hl _]].
  congruence.
Qed.

(** Replacing the running coroutine [(pid, pc)] by its continuation. *)
Lemma tasks_after st pid pc pc' ts1 ts2 (j' : _State) (k : bool) :
  Forall (task_ok st) (ts1 ++ (pid, pc) :: ts2) ->
  NoDup (map fst (ts1 ++ (pid, pc) :: ts2)) ->
  (k = true -> task_ok (<[pid := j']> st) (pid, pc')) ->
  Forall (task_ok (<[pid := j']> st)) (ts1 ++ (if k then [(pid, pc')] else []) ++ ts2) /\
  NoDup (map fst (ts1 ++ (if k then [(pid, pc')] else []) ++ ts2)).
Proof.
  intros Hf Hnd Hk.
  rewrite fmap_app, fmap_cons in Hnd.
  apply NoDup_app in Hnd as [Hnd1 [Hdis Hnd2]].
  apply NoDup_cons in Hnd2 as [Hnot2 Hnd2].
  assert (Hnot1 : pid ∉ map fst ts1)
    by (intros Hin; apply (Hdis pid Hin); left).
  apply Forall_app in Hf as [Hf1 Hf2]. apply Forall_cons in Hf2 as [_ Hf2].
  assert (Hmove : forall ts, pid ∉ map fst ts -> Forall (task_ok st) ts ->
                  Forall (task_ok (<[pid := j']> st)) ts).
  { intros ts Hn Hts. rewrite Forall_forall in Hts |- *. intros t Ht.
    apply task_ok_insert_ne; [|auto].
    intros <-. apply Hn. apply list_elem_of_fmap. eauto. }
  split.
  - apply Forall_app. split; [apply Hmove; auto|].
    apply Forall_app. split; [|apply Hmove; auto].
    destruct k; constructor; auto.
  - rewrite !fmap_app. apply NoDup_app. split; [exact Hnd1|]. split.
    + intros x Hx Hx'. apply elem_of_app in Hx' as [Hx'|Hx'].
      * destruct k; simpl in Hx'; [|set_solver].
        apply list_elem_of_singleton in Hx'. subst. contradiction.
      * apply (Hdis x Hx). right. exact Hx'.
    + apply NoDup_app. split; [destruct k; simpl; [apply NoDup_singleton | constructor]|].
      split; [|exact Hnd2].
      intros x Hx. destruct k; simpl in Hx; [|set_solver].
      apply list_elem_of_singleton in Hx. subst. exact Hnot2.
Qed.

Lemma bootstrap_inv files : forall st ts,
  map_Forall (fun _ j => consistent j = true) st -> Forall (task_ok st) ts ->
  map_Forall (fun _ j => consistent j = true) (fst (bootstrap_from_storage files st)) /\
  Forall (task_ok (fst (bootstrap_from_storage files st))) ts.
Proof.
  induction files as [|[stem mtime] rest IH]; intros st ts Hc Ht; simpl; [auto|].
  destruct (st !! stem) eqn:Hl; [apply IH; auto|].
  destruct (bootstrap_from_storage rest (<[stem := bootstrap_state stem mtime]> st))
    as [st' n] eqn:Hb.
  simpl. change st' with (fst (st', n)). rewrite <- Hb. apply IH.
  - apply map_Forall_insert_2; [reflexivity | exact Hc].
  - rewrite Forall_forall in Ht |- *. intros t Hin. apply task_ok_insert_ne; auto.
    intros <-. destruct (Ht t Hin) as [j [Hj _]]. congruence.
Qed.

Lemma step_inv w w' : inv w -> step w w' -> inv w'.
Proof.
  intros [Hc [Ht Hnd]] Hs. destruct Hs; unfold inv; simpl in *.
  - (* create *)
    split; [apply map_Forall_insert_2; [reflexivity | exact Hc]|].
    pose proof (tasks_not_in _ _ _ Ht H) as Hnot. split.
    + apply Forall_app. split.
      * rewrite Forall_forall in Ht |- *. intros t Hin. apply task_ok_insert_ne; auto.
        intros <-. apply Hnot. apply list_elem_of_fmap. eauto.
      * constructor; [|constructor]. exists (create_state pid p now).
        simpl. rewrite lookup_insert_eq. auto.
    + rewrite List.map_app. apply NoDup_app. split; [exact Hnd|]. split; [|apply NoDup_singleton].
      intros x Hx Hx'. simpl in Hx'. apply list_elem_of_singleton in Hx'. subst. contradiction.
  - (* start *)
    pose proof Ht as Ht0. apply Forall_app in Ht0 as [_ Ht0]. apply Forall_cons in Ht0 as [[j [Hj Hsj]] _].
    simpl in Hj, Hsj. unfold start_segment. rewrite Hj.
    destruct Hsj as [Hq | Hq]; rewrite Hq; simpl.
    + destruct (consistent_idle j) as [Ha He]; [apply Hc with pid; exact Hj | congruence | congruence |].
      split.
      * apply map_Forall_insert_2; [|exact Hc].
        unfold consistent; simpl. rewrite Ha, He. reflexivity.
      * apply (tasks_after st pid 0 1 ts1 ts2 _ true); auto.
        intros _. eexists. rewrite lookup_insert_eq. simpl. auto.
    + rewrite <- (insert_id st pid j Hj) at 1 2.
      split; [rewrite insert_id; auto|].
      apply (tasks_after st pid 0 1 ts1 ts2 j false); auto. discriminate.
  - (* resume *)
    pose proof Ht as Ht0. apply Forall_app in Ht0 as [_ Ht0]. apply Forall_cons in Ht0 as [[j [Hj Hsj]] _].
    simpl in Hj, Hsj.
    destruct (consistent_idle j) as [Ha He];
      [apply Hc with pid; exact Hj | destruct Hsj; congruence | destruct Hsj; congruence |].
    unfold resume_segment. rewrite Hj.
    pose proof (segment_effect pid (S i) m synth now j) as Heff.
    unfold try_except.
    destruct (segment pid (S i) m synth now j) as [s' [e | [|]]]; simpl; split.
    + apply map_Forall_insert_2; [|exact Hc].
      unfold consistent; simpl. destruct Heff as [_ [-> _]]. rewrite Ha. reflexivity.
    + apply (tasks_after st pid (S i) (S (S i)) ts1 ts2 _ false); auto. discriminate.
    + apply map_Forall_insert_2; [|exact Hc].
      destruct Heff as [Hst [Has Her]].
      unfold consistent. rewrite Hst, Has, Her, Ha, He.
      destruct Hsj as [-> | ->]; reflexivity.
    + apply (tasks_after st pid (S i) (S (S i)) ts1 ts2 _ true); auto.
      intros _. exists s'. rewrite lookup_insert_eq. split; [reflexivity|].
      destruct Heff as [-> _]. exact Hsj.
    + apply map_Forall_insert_2; [|exact Hc].
      destruct Heff as [Hst [Has Her]].
      unfold consistent. rewrite Hst, Has, Her, He. reflexivity.
    + apply (tasks_after st pid (S i) (S (S i)) ts1 ts2 _ false); auto. discriminate.
  - (* cancel or delete *)
    unfold cancel_or_delete_podcast. destruct (st !! pid) as [j|] eqn:Hj; simpl; [|auto].
    assert (Hgen : forall v, Forall (task_ok st) ts -> (forall t, t ∈ ts -> t.1 <> pid) ->
                   Forall (task_ok (<[pid := v]> st)) ts).
    { intros v Hts Hne. rewrite Forall_forall in Hts |- *. intros t Hin.
      apply task_ok_insert_ne; auto. }
    destruct (status j) eqn:Hsj; simpl.
    1,2,5: destruct (consistent_idle j) as [Ha He];
      [apply Hc with pid; exact Hj | congruence | congruence |].
    1-3: split; [apply map_Forall_insert_2; [|exact Hc];
                 unfold consistent; simpl; rewrite Ha, He; reflexivity|];
      split; [|exact Hnd];
      rewrite Forall_forall in Ht |- *; intros t Hin;
      destruct (decide (t.1 = pid)) as [Heq|Hne];
      [ exists (set_updated_at now (set_status Cancelled j));
        rewrite Heq, lookup_insert_eq; split; [reflexivity|];
        simpl; destruct (Nat.eqb t.2 0); auto
      | apply task_ok_insert_ne; auto ].
    all: split; [apply map_Forall_delete; exact Hc|]; split; [|exact Hnd];
      rewrite Forall_forall in Ht |- *; intros t Hin;
      destruct (Ht t Hin) as [j' [Hj' Hs']];
      exists j'; split; [|exact Hs'];
      rewrite lookup_delete_ne; [exact Hj'|];
      intros ->; rewrite Hj in Hj'; injection Hj' as <-;
      destruct (Nat.eqb t.2 0); destruct Hs'; congruence.
  - (* bootstrap *)
    destruct (bootstrap_inv files st ts Hc Ht). auto.
Qed.

Lemma steps_inv x y : rtc step x y -> inv x -> inv y.
Proof.
  induction 1 as [x | x y z Hxy Hyz IH]; intros Hx; [exact Hx|].
  apply IH. exact (step_inv x y Hx Hxy).
Qed.

Lemma reachable_inv w : reachable w -> inv w.
Proof.
  intros H. apply (steps_inv init w H).
  split; [apply map_Forall_empty|]. split; constructor.
Qed.

Lemma run_w6_reachable : reachable run_w6.
Proof.
  eapply rtc_r; [apply run_w5_reachable | apply run_step6].
Qed.

Lemma consistent_spec j :
  consistent j = true ->
  (audio_url j <> None <-> status j = Done) /\ (error j <> None <-> status j = Failed).
Proof.
  unfold consistent. intros H. apply andb_true_iff in H as [Ha He].
  apply Bool.eqb_prop in Ha, He.
  split; [destruct (decide (status j = Done)) as [Hd|Hd]
         |destruct (decide (status j = Failed)) as [Hd|Hd]];
    [rewrite (bool_decide_eq_true_2 _ Hd) in Ha
    |rewrite (bool_decide_eq_false_2 _ Hd) in Ha
    |rewrite (bool_decide_eq_true_2 _ Hd) in He
    |rewrite (bool_decide_eq_false_2 _ Hd) in He];
    [apply bool_decide_eq_true in Ha | apply bool_decide_eq_false in Ha
    |apply bool_decide_eq_true in He | apply bool_decide_eq_false in He];
    split; intros X; try tauto;
    [destruct Ha as [x Hx]; congruence
    | exfalso; apply Ha; destruct (audio_url j); [eexists; reflexivity | congruence]
    | destruct He as [x Hx]; congruence
    | exfalso; apply He; destruct (error j); [eexists; reflexivity | congruence]].
Qed.

(** Claim C2.  In every reachable state of the process (between any two
    segments of any coroutine and any request handler: creation,
    checkpoints, success, failure, cancel, startup reconciliation), every
    job in the store has [audio_url] set iff its status is done, and
    [error] set iff its status is failed. *)
Theorem audio_url_iff_done_error_iff_failed (w : world) (pid : string) (j : _State) :
  reachable w -> w_store w !! pid = Some j ->
  (audio_url j <> None <-> status j = Done) /\ (error j <> None <-> status j = Failed).
Proof.
  intros Hr Hj. destruct (reachable_inv w Hr) as [Hc _].
  apply consistent_spec. exact (Hc pid j Hj).
Qed.

Lemma audio_url_iff_done_error_iff_failed_witness :
  exists j, w_store run_w6 !! "job1" = Some j /\ status j = Done /\
    ((audio_url j <> None <-> status j = Done) /\ (error j <> None <-> status j = Failed)).
Proof.
  eexists. split; [vm_compute; reflexivity|]. split; [reflexivity|].
  apply (audio_url_iff_done_error_iff_failed run_w6 "job1");
    [apply run_w6_reachable | vm_compute; reflexivity].
Defined.

(* ------------------------------------------------------------------ *)
(** ** Failure handling and the entry guard *)

(** Claim C3.  Whatever the pipeline of a resumed segment raises
    (materials resolution or script production in the checkpoint, the
    output directory or the speech synthesizer afterwards), the coroutine
    catches it: the segment returns normally, does not suspend again, and
    leaves the job failed with [error] the exception's message. *)
Theorem pipeline_exception_ends_failed (pid : string) (i : nat) (m : materials)
    (synth : string -> option string) (now : nat) (st : store) (j s' : _State) (e : string) :
  st !! pid = Some j ->
  segment pid i m synth now j = (s', inl e) ->
  exists j', resume_segment pid i m synth now st = (<[pid := j']> st, false) /\
             status j' = Failed /\ error j' = Some e.
Proof.
  intros Hj Hseg. unfold resume_segment, try_except. rewrite Hj, Hseg.
  eexists. split; [reflexivity|]. split; reflexivity.
Qed.

Definition failing_materials : materials := PillarFound (Raise "AttributeError").

Lemma pipeline_exception_ends_failed_witness :
  exists s', segment "job1" 1 failing_materials no_tts_error 4
               (set_updated_at 2 (set_status Running (create_state "job1" demo_request 1)))
             = (s', inl "AttributeError") /\
  exists j', resume_segment "job1" 1 failing_materials no_tts_error 4 (w_store run_w2)
             = (<[ "job1" := j' ]> (w_store run_w2), false) /\
             status j' = Failed /\ error j' = Some "AttributeError".
Proof.
  eexists. split; [vm_compute; reflexivity|].
  eapply (pipeline_exception_ends_failed "job1" 1 failing_materials no_tts_error 4
           (w_store run_w2) (set_updated_at 2 (set_status Running (create_state "job1" demo_request 1))));
    vm_compute; reflexivity.
Defined.

(** Claim C4.  Invoked on a job that is already cancelled, failed or done,
    the orchestrator returns at once: the store is unchanged (this job and
    every other entry) and the coroutine ends. *)
Theorem entry_guard_noop (pid : string) (now : nat) (st : store) (j : _State) :
  st !! pid = Some j ->
  status j = Cancelled \/ status j = Failed \/ status j = Done ->
  start_segment pid now st = (st, false).
Proof.
  intros Hj Hs. unfold start_segment. rewrite Hj.
  destruct Hs as [-> | [-> | ->]]; reflexivity.
Qed.

Lemma entry_guard_noop_witness :
  start_segment "job1" 7 (w_store run_w3) = (w_store run_w3, false).
Proof.
  apply (entry_guard_noop "job1" 7 (w_store run_w3)
           (set_updated_at 3 (set_status Cancelled
              (set_updated_at 2 (set_status Running (create_state "job1" demo_request 1))))));
    [vm_compute; reflexivity | left; reflexivity].
Defined.

(* ------------------------------------------------------------------ *)
(** ** The supplied script *)

Lemma segment_keeps_script pid i m synth now s :
  truthy (script s) = true ->
  script (fst (segment pid i m synth now s)) = script s /\
  forall m', segment pid i m' synth now s = segment pid i m synth now s.
Proof.
  intros Ht. run_job. rewrite Ht. simpl.
  split; [destruct (Nat.ltb i 3); simpl; [|destruct (synth _)]; reflexivity|].
  intros m'. reflexivity.
Qed.

Lemma bootstrap_keeps files : forall st k v,
  st !! k = Some v -> fst (bootstrap_from_storage files st) !! k = Some v.
Proof.
  induction files as [|[stem mtime] rest IH]; intros st k v Hk; simpl; [exact Hk|].
  destruct (st !! stem) eqn:Hl; [apply IH; exact Hk|].
  destruct (bootstrap_from_storage rest (<[stem := bootstrap_state stem mtime]> st))
    as [st' n] eqn:Hb.
  simpl. change st' with (fst (st', n)). rewrite <- Hb. apply IH.
  rewrite lookup_insert_ne; [exact Hk|]. intros ->. congruence.
Qed.

(** Claim C5.  A job whose script is a non-empty string keeps it: no step
    of the process (a checkpoint of its own coroutine included) writes
    another value into the field while the job is in the store, and its
    checkpoints do not depend on what the script producer would return,
    since they never call it. *)
Theorem supplied_script_preserved (w : world) (pid : string) (j : _State) :
  w_store w !! pid = Some j -> truthy (script j) = true ->
  (forall w' j', step w w' -> w_store w' !! pid = Some j' -> script j' = script j) /\
  (forall i m m' synth now,
     resume_segment pid i m synth now (w_store w) = resume_segment pid i m' synth now (w_store w)).
Proof.
  intros Hj Ht. split.
  - intros w' j' Hs Hj'. destruct Hs; simpl in *.
    + (* create *)
      rewrite lookup_insert_ne in Hj' by congruence. congruence.
    + (* start *)
      unfold start_segment in Hj'. destruct (st !! pid0) as [s|] eqn:Hs; simpl in Hj'; [|congruence].
      destruct (is_terminal (status s)); simpl in Hj'; [congruence|].
      destruct (decide (pid0 = pid)) as [->|Hne].
      * rewrite lookup_insert_eq in Hj'. injection Hj' as <-. simpl. congruence.
      * rewrite lookup_insert_ne in Hj' by exact Hne. congruence.
    + (* resume *)
      unfold resume_segment in Hj'. destruct (st !! pid0) as [s|] eqn:Hs; [|simpl in Hj'; congruence].
      destruct (decide (pid0 = pid)) as [->|Hne].
      * rewrite Hs in Hj. injection Hj as ->.
        destruct (segment_keeps_script pid (S i) m synth now j Ht) as [Hk _].
        unfold try_except in Hj'.
        destruct (segment pid (S i) m synth now j) as [s' [e|k]] eqn:Hseg;
          simpl in Hj', Hk; rewrite lookup_insert_eq in Hj'; injection Hj' as <-;
          simpl; exact Hk.
      * destruct (try_except _ now s) as [s' k]. simpl in Hj'.
        rewrite lookup_insert_ne in Hj' by exact Hne. congruence.
    + (* cancel or delete *)
      unfold cancel_or_delete_podcast in Hj'. destruct (st !! pid0) as [s|] eqn:Hs; simpl in Hj'; [|congruence].
      destruct (decide (pid0 = pid)) as [->|Hne].
      * rewrite Hs in Hj. injection Hj as ->.
        destruct (status j); simpl in Hj';
          try (rewrite lookup_delete_eq in Hj'; discriminate);
          rewrite lookup_insert_eq in Hj'; injection Hj' as <-; reflexivity.
      * destruct (status s); simpl in Hj';
          try (rewrite lookup_delete_ne in Hj' by exact Hne; congruence);
          rewrite lookup_insert_ne in Hj' by exact Hne; congruence.
    + (* bootstrap *)
      rewrite (bootstrap_keeps files st pid j Hj) in Hj'. congruence.
  - intros i m m' synth now. unfold resume_segment. rewrite Hj.
    destruct (segment_keeps_script pid i m synth now j Ht) as [_ Hm].
    unfold try_except. rewrite (Hm m'). reflexivity.
Qed.

Definition scripted_request : PodcastCreateRequest :=
  {| req_title := "Demo"; req_description := None; req_voice := None;
     req_script := Some "Hello from the hosts."; req_source_urls := [];
     req_materials_set := None |}.

Lemma supplied_script_preserved_witness :
  let w := W (<[ "job2" := create_state "job2" scripted_request 1 ]> ∅) [("job2", 0)] in
  (forall w' j', step w w' -> w_store w' !! "job2" = Some j' ->
                 script j' = Some "Hello from the hosts.") /\
  (forall i m m' synth now,
     resume_segment "job2" i m synth now (w_store w) =
     resume_segment "job2" i m' synth now (w_store w)).
Proof.
  exact (supplied_script_preserved
           (W (<[ "job2" := create_state "job2" scripted_request 1 ]> ∅) [("job2", 0)])
           "job2" (create_state "job2" scripted_request 1) eq_refl eq_refl).
Defined.

(** Claim C10.  A job created with [script = ""] goes through the
    orchestrator as one created with no script: on the same inputs a
    segment takes the same branches and returns the same result, the
    states agree on every field but [script], and once the acquisition
    sub-phase succeeds both hold the produced (or placeholder) script. *)
Theorem empty_script_treated_as_missing (pid : string) (i : nat) (m : materials)
    (synth : string -> option string) (now : nat) (j : _State) :
  script j = Some "" ->
  let '(s1, r1) := segment pid i m synth now j in
  let '(s2, r2) := segment pid i m synth now (set_script None j) in
  r1 = r2 /\ set_script None s1 = set_script None s2 /\
  (forall sc, acquire_script m j = Ok sc -> s1 = s2 /\ script s1 = Some sc).
Proof.
  intros Hj. run_job. rewrite Hj. simpl.
  destruct (acquire_script m _) as [sc|e]; simpl.
  - destruct (Nat.ltb i 3); simpl; [|destruct (synth _)]; simpl;
      (split; [reflexivity|]); (split; [reflexivity|]);
      intros sc0 Hsc; injection Hsc as <-; split; reflexivity.
  - split; [reflexivity|]. split; [reflexivity|].
    intros sc0 Hsc. discriminate Hsc.
Qed.

Definition empty_script_request : PodcastCreateRequest :=
  {| req_title := "Demo"; req_description := None; req_voice := None;
     req_script := Some ""; req_source_urls := []; req_materials_set := None |}.

Lemma empty_script_treated_as_missing_witness :
  let '(s1, r1) := segment "job3" 1 NoMaterials no_tts_error 2
                     (create_state "job3" empty_script_request 1) in
  let '(s2, r2) := segment "job3" 1 NoMaterials no_tts_error 2
                     (set_script None (create_state "job3" empty_script_request 1)) in
  r1 = r2 /\ set_script None s1 = set_script None s2 /\
  (forall sc, acquire_script NoMaterials (create_state "job3" empty_script_request 1) = Ok sc ->
              s1 = s2 /\ script s1 = Some sc).
Proof.
  exact (empty_script_treated_as_missing "job3" 1 NoMaterials no_tts_error 2
           (create_state "job3" empty_script_request 1) eq_refl).
Defined.

(* ------------------------------------------------------------------ *)
(** ** Cancel or delete *)

(** Claim C9.  On a job whose status is cancelled, [cancel_or_delete_podcast]
    keeps it in the store: it marks it cancelled again with [updated_at]
    bumped and returns that snapshot; it removes a job from the store only
    when the job is done or failed, and touches no other entry. *)
Theorem cancel_or_delete_keeps_cancelled (pid : string) (now : nat) (st : store) (j : _State) :
  st !! pid = Some j ->
  (status j = Cancelled ->
     cancel_or_delete_podcast pid now st =
       (<[pid := set_updated_at now j]> st, Some (set_updated_at now j))) /\
  (fst (cancel_or_delete_podcast pid now st) !! pid = None ->
     status j = Done \/ status j = Failed) /\
  (forall k, k <> pid -> fst (cancel_or_delete_podcast pid now st) !! k = st !! k).
Proof.
  intros Hj. unfold cancel_or_delete_podcast. rewrite Hj. split; [|split].
  - intros Hc. rewrite Hc. destruct j; simpl in *; subst; reflexivity.
  - destruct (status j) eqn:Hs; simpl; auto;
      rewrite lookup_insert_eq; discriminate.
  - intros k Hk. destruct (status j); simpl;
      first [rewrite lookup_delete_ne by congruence | rewrite lookup_insert_ne by congruence];
      reflexivity.
Qed.

Lemma cancel_or_delete_keeps_cancelled_witness :
  cancel_or_delete_podcast "job1" 8 (w_store run_w3) =
    (<[ "job1" := set_updated_at 8 (set_updated_at 3 (set_status Cancelled
        (set_updated_at 2 (set_status Running (create_state "job1" demo_request 1))))) ]>
       (w_store run_w3),
     Some (set_updated_at 8 (set_updated_at 3 (set_status Cancelled
        (set_updated_at 2 (set_status Running (create_state "job1" demo_request 1))))))).
Proof.
  apply (cancel_or_delete_keeps_cancelled "job1" 8 (w_store run_w3)); [vm_compute; reflexivity|].
  reflexivity.
Defined.

(* ------------------------------------------------------------------ *)
(** ** The readability filter *)

Definition threshold_ok (l n : nat) : bool :=
  Bool.eqb (PrimFloat.ltb (PrimFloat.div (float_of_nat l) (float_of_nat (Nat.max 1 n))) f0_55)
           (Nat.ltb (20 * l) (11 * n)).

Lemma threshold_table :
  forallb (fun n => forallb (fun l => threshold_ok l n) (seq 0 (S n))) (seq 20 241) = true.
Proof. vm_compute. reflexivity. Qed.

(** For lengths 20 to 260 the float test [letters / len < 0.55] is the exact
    rational test [20 * letters < 11 * len]. *)
Lemma threshold_exact (n l : nat) :
  20 <= n <= 260 -> l <= n ->
  PrimFloat.ltb (PrimFloat.div (float_of_nat l) (float_of_nat (Nat.max 1 n))) f0_55 =
  Nat.ltb (20 * l) (11 * n).
Proof.
  intros Hn Hl. pose proof threshold_table as T.
  rewrite forallb_forall in T. specialize (T n).
  rewrite in_seq in T. specialize (T ltac:(lia)).
  rewrite forallb_forall in T. specialize (T l).
  rewrite in_seq in T. specialize (T ltac:(lia)).
  unfold threshold_ok in T. apply Bool.eqb_prop in T. exact T.
Qed.

Lemma letters_le (s : string) : letters s <= String.length s.
Proof.
  unfold letters. induction s as [|c r IH]; cbn [list_ascii_of_string List.filter length String.length]; [lia|].
  destruct (is_alpha c); cbn [length]; lia.
Qed.

Lemma readable_decides (t : string) :
  (if ((String.length t <? 20) || (260 <? String.length t))%nat then false
   else if PrimFloat.ltb (PrimFloat.div (float_of_nat (letters t))
                            (float_of_nat (Nat.max 1 (String.length t)))) f0_55 then false
   else if existsb (fun tok => contains tok t) markers then false
   else true) = readable_as_specified t.
Proof.
  unfold readable_as_specified.
  pose proof (letters_le t) as Hl.
  destruct (Nat.lt_ge_cases (String.length t) 20) as [H1|H1].
  { rewrite (proj2 (Nat.ltb_lt _ _) H1), (proj2 (Nat.leb_gt _ _) H1). reflexivity. }
  rewrite (proj2 (Nat.ltb_ge _ _) H1), (proj2 (Nat.leb_le _ _) H1).
  destruct (Nat.lt_ge_cases 260 (String.length t)) as [H2|H2].
  { rewrite (proj2 (Nat.ltb_lt _ _) H2), (proj2 (Nat.leb_gt _ _) H2). reflexivity. }
  rewrite (proj2 (Nat.ltb_ge _ _) H2), (proj2 (Nat.leb_le _ _) H2).
  cbn [orb andb].
  rewrite threshold_exact by lia.
  destruct (Nat.lt_ge_cases (20 * letters t) (11 * String.length t)) as [H3|H3].
  - rewrite (proj2 (Nat.ltb_lt _ _) H3).
    rewrite (proj2 (Nat.leb_gt _ _) H3).
    reflexivity.
  - rewrite (proj2 (Nat.ltb_ge _ _) H3), (proj2 (Nat.leb_le _ _) H3).
    cbn [andb]. destruct (existsb _ _); reflexivity.
Qed.

(** Claim C6 (corrected).  Both copies of the filter strip leading and
    trailing whitespace first and judge the stripped string: it is accepted
    iff its length is in [20, 260], letters make at least 55% of it, and it
    contains none of [http://], [https://], [www.], [@], [#], [__]. *)
Theorem readable_sentence_on_stripped (s : string) :
  _readable_sentence s = readable_as_specified (strip s) /\
  is_readable_sentence s = readable_as_specified (strip s).
Proof.
  split; [unfold _readable_sentence | unfold is_readable_sentence];
    apply readable_decides.
Qed.

Fixpoint repeat_char (n : nat) (c : ascii) : string :=
  match n with
  | 0 => EmptyString
  | S k => String c (repeat_char k c)
  end.

(** 25 letters followed by 240 spaces: 265 characters. *)
Definition padded_sentence : string := repeat_char 25 "a"%char ++ repeat_char 240 " "%char.

(** The claim read on the string as given fails: a 265-character input,
    longer than 260, is accepted, because the checks run on [s.strip()]. *)
Lemma readable_sentence_padded_accepted :
  String.length padded_sentence = 265 /\
  readable_as_specified padded_sentence = false /\
  _readable_sentence padded_sentence = true.
Proof. vm_compute. auto. Qed.

(* ------------------------------------------------------------------ *)
(** ** The materials caps *)

Lemma str_length_app (a b : string) :
  String.length (a ++ b) = (String.length a + String.length b)%nat.
Proof. induction a as [|c r IH]; simpl; [reflexivity|]. rewrite IH. reflexivity. Qed.

Lemma str_take_length (n : nat) (s : string) :
  String.length (str_take n s) = Nat.min n (String.length s).
Proof.
  revert s. induction n as [|k IH]; intros [|c r]; simpl; try reflexivity.
  rewrite IH. reflexivity.
Qed.

Lemma str_take_take (n m : nat) (s : string) :
  str_take n (str_take m s) = str_take (Nat.min n m) s.
Proof.
  revert m s. induction n as [|k IH]; intros [|m] [|c r]; simpl; try reflexivity.
  rewrite IH. reflexivity.
Qed.

Definition zsum (l : list string) : Z := fold_right (fun s acc => (zlen s + acc)%Z) 0%Z l.

Lemma concat_length (l : list string) :
  zlen (String.concat newline l) = (zsum l + Z.of_nat (length l - 1))%Z.
Proof.
  induction l as [|a [|b r] IH]; [reflexivity | simpl; lia|].
  change (String.concat newline (a :: b :: r)) with (a ++ newline ++ String.concat newline (b :: r)).
  unfold zlen in *. rewrite !str_length_app. simpl in IH |- *.
  rewrite Nat.sub_0_r in *. unfold zlen in *. lia.
Qed.

Lemma header_length (name : string) :
  zlen (file_header name) = (zlen name + 16)%Z.
Proof.
  unfold zlen, file_header. rewrite !str_length_app. simpl. lia.
Qed.

(** The running total never passes the global budget. *)
Lemma load_chunks_total (files : list (string * string)) : forall total,
  (0 <= total <= GLOBAL_CAP)%Z -> (total + zsum (load_chunks files total) <= GLOBAL_CAP)%Z.
Proof.
  induction files as [|[name text] rest IH]; intros total Ht; cbn [load_chunks]; [simpl; lia|].
  destruct (String.eqb text "") eqn:He; [apply IH; exact Ht|].
  set (snippet := str_take (Z.to_nat PER_FILE_CAP) text).
  set (header := file_header name).
  destruct (GLOBAL_CAP <? total + zlen (header ++ snippet))%Z eqn:Hover.
  - apply Z.ltb_lt in Hover.
    destruct (Z.max 0 (GLOBAL_CAP - total) <=? zlen header)%Z eqn:Hrem; [cbn [zsum fold_right]; lia|].
    apply Z.leb_gt in Hrem.
    set (b := header ++ str_take (Z.to_nat (Z.max 0 (GLOBAL_CAP - total) - zlen header)) snippet).
    assert (Hb : (zlen b <= GLOBAL_CAP - total)%Z).
    { unfold b, zlen in *. rewrite str_length_app, str_take_length. lia. }
    assert (Hb0 : (0 <= zlen b)%Z) by (unfold zlen; lia).
    destruct (GLOBAL_CAP <=? total + zlen b)%Z eqn:Hstop; cbn [zsum fold_right].
    + lia.
    + apply Z.leb_gt in Hstop. specialize (IH (total + zlen b)%Z ltac:(lia)).
      unfold zsum in IH. lia.
  - apply Z.ltb_ge in Hover.
    assert (Hb0 : (0 <= zlen (header ++ snippet))%Z) by (unfold zlen; lia).
    destruct (GLOBAL_CAP <=? total + zlen (header ++ snippet))%Z eqn:Hstop; cbn [zsum fold_right]; [lia|].
    apply Z.leb_gt in Hstop.
    specialize (IH (total + zlen (header ++ snippet))%Z ltac:(lia)). unfold zsum in IH. lia.
Qed.

Lemma per_file_pos : (0 <= PER_FILE_CAP)%Z.
Proof. unfold PER_FILE_CAP. lia. Qed.

(** Every block is a file's header followed by at most [PER_FILE_CAP]
    leading characters of that file's text. *)
Lemma load_chunks_blocks (files : list (string * string)) : forall total c,
  In c (load_chunks files total) ->
  exists name text k, In (name, text) files /\ (Z.of_nat k <= PER_FILE_CAP)%Z /\
                      c = file_header name ++ str_take k text.
Proof.
  pose proof per_file_pos as Hp.
  induction files as [|[name text] rest IH]; intros total c Hc; cbn [load_chunks] in Hc; [destruct Hc|].
  assert (Hlift : forall t, In c (load_chunks rest t) ->
            exists name' text' k, In (name', text') ((name, text) :: rest) /\
              (Z.of_nat k <= PER_FILE_CAP)%Z /\ c = file_header name' ++ str_take k text').
  { intros t Ht. destruct (IH t c Ht) as (n & t' & k & Hin & Hk & ->).
    exists n, t', k. split; [right; exact Hin|]. auto. }
  destruct (String.eqb text ""); [exact (Hlift total Hc)|].
  destruct (GLOBAL_CAP <? _)%Z.
  - destruct (_ <=? _)%Z; [destruct Hc|].
    destruct Hc as [<- | Hc].
    + rewrite str_take_take. eexists name, text, _. split; [left; reflexivity|].
      split; [|reflexivity]. rewrite Nat2Z.inj_min, (Z2Nat.id PER_FILE_CAP Hp). lia.
    + destruct (GLOBAL_CAP <=? _)%Z; [destruct Hc | exact (Hlift _ Hc)].
  - destruct Hc as [<- | Hc].
    + eexists name, text, _. split; [left; reflexivity|].
      split; [|reflexivity]. rewrite (Z2Nat.id PER_FILE_CAP Hp). lia.
    + destruct (GLOBAL_CAP <=? _)%Z; [destruct Hc | exact (Hlift _ Hc)].
Qed.

(** A file whose block would pass the global budget is cut to fill the
    budget exactly, or dropped when no more than its header fits; either way
    the remaining files are not read. *)
Lemma load_chunks_overflow (name text : string) (rest : list (string * string)) (total : Z) :
  (0 <= total <= GLOBAL_CAP)%Z -> text <> "" ->
  (GLOBAL_CAP < total + zlen (file_header name ++ str_take (Z.to_nat PER_FILE_CAP) text))%Z ->
  load_chunks ((name, text) :: rest) total =
    if (GLOBAL_CAP - total <=? zlen (file_header name))%Z then []
    else [file_header name ++
          str_take (Z.to_nat (GLOBAL_CAP - total - zlen (file_header name))) text].
Proof.
  pose proof per_file_pos as Hp.
  intros Ht Hne Hover. cbn [load_chunks].
  rewrite (proj2 (String.eqb_neq _ _) Hne), (proj2 (Z.ltb_lt _ _) Hover).
  rewrite Z.max_r by lia.
  destruct (GLOBAL_CAP - total <=? zlen (file_header name))%Z eqn:Hr; [reflexivity|].
  apply Z.leb_gt in Hr.
  unfold zlen in Hover, Hr. rewrite str_length_app, str_take_length in Hover.
  rewrite Nat2Z.inj_add, Nat2Z.inj_min, (Z2Nat.id PER_FILE_CAP Hp) in Hover.
  rewrite str_take_take.
  assert (Hmin : Nat.min (Z.to_nat (GLOBAL_CAP - total - zlen (file_header name)))
                         (Z.to_nat PER_FILE_CAP)
                 = Z.to_nat (GLOBAL_CAP - total - zlen (file_header name))).
  { unfold zlen. apply Nat.min_l. apply Z2Nat.inj_le; lia. }
  rewrite Hmin.
  assert (Hfull : (GLOBAL_CAP <=? total + zlen (file_header name ++
            str_take (Z.to_nat (GLOBAL_CAP - total - zlen (file_header name))) text))%Z = true).
  { apply Z.leb_le. unfold zlen. rewrite str_length_app, str_take_length.
    rewrite Nat2Z.inj_add, Nat2Z.inj_min, Z2Nat.id by (unfold zlen; lia).
    unfold zlen. lia. }
  rewrite Hfull. reflexivity.
Qed.

(** Claim C8 (corrected).  Each block of the flat materials text is a
    file's header followed by at most 200,000 leading characters of that
    file's text, and the blocks together hold at most 500,000 characters;
    the blob joins them with one newline between consecutive blocks, which
    the budget does not count, so its length is the blocks' total plus the
    number of blocks minus one.  A file whose block would pass the budget is
    cut to fill it exactly, or dropped when no more than its header fits,
    and no further file is read. *)
Theorem materials_text_caps (files : list (string * string)) :
  (zsum (load_chunks files 0) <= GLOBAL_CAP)%Z /\
  zlen (_load_materials_text files) =
    (zsum (load_chunks files 0) + Z.of_nat (length (load_chunks files 0) - 1))%Z /\
  (forall c, In c (load_chunks files 0) ->
     exists name text k, In (name, text) files /\ (Z.of_nat k <= PER_FILE_CAP)%Z /\
                         c = file_header name ++ str_take k text) /\
  (forall name text rest total,
     (0 <= total <= GLOBAL_CAP)%Z -> text <> "" ->
     (GLOBAL_CAP < total + zlen (file_header name ++ str_take (Z.to_nat PER_FILE_CAP) text))%Z ->
     load_chunks ((name, text) :: rest) total =
       if (GLOBAL_CAP - total <=? zlen (file_header name))%Z then []
       else [file_header name ++
             str_take (Z.to_nat (GLOBAL_CAP - total - zlen (file_header name))) text]).
Proof.
  split; [|split; [|split]].
  - pose proof (load_chunks_total files 0 ltac:(unfold GLOBAL_CAP; lia)). lia.
  - apply concat_length.
  - intros c Hc. exact (load_chunks_blocks files 0 c Hc).
  - intros name text rest total Ht Hne Hover. exact (load_chunks_overflow name text rest total Ht Hne Hover).
Qed.

Lemma materials_text_caps_witness :
  load_chunks [("d.txt", "hello world")] 499990 = [].
Proof.
  rewrite (proj2 (proj2 (proj2 (materials_text_caps [])))).
  - reflexivity.
  - unfold GLOBAL_CAP. lia.
  - discriminate.
  - vm_compute. reflexivity.
Defined.

Definition big_file : string * string := ("a.txt", repeat_char (Z.to_nat 200000) "a"%char).

Definition near_full_files : list (string * string) :=
  [big_file; big_file; ("c.txt", repeat_char (Z.to_nat 99927) "a"%char); ("d.txt", "hello world")].

(** The claim fails on two inputs.  Three files of 200,000 characters give
    a blob of 500,002 characters, over the 500,000 budget (the two newline
    separators are not counted).  With 499,990 characters already taken,
    the non-empty [d.txt] is not cut mid-file but dropped: only three blocks
    are produced. *)
Lemma materials_text_over_budget :
  zlen (_load_materials_text [big_file; big_file; big_file]) = 500002%Z /\
  length (load_chunks near_full_files 0) = 3%nat /\
  zsum (load_chunks near_full_files 0) = 499990%Z.
Proof. vm_compute. auto. Qed.

(* ------------------------------------------------------------------ *)
(** ** Further properties of the API and its helpers *)

Lemma contains_split_once (sep s : string) :
  contains sep s = match split_once sep s with Some _ => true | None => false end.
Proof.
  induction s as [|c s IH].
  - destruct sep; reflexivity.
  - change (contains sep (String c s)) with (String.prefix sep (String c s) || contains sep s).
    change (split_once sep (String c s)) with
      (if String.prefix sep (String c s) then Some (str_drop (String.length sep) (String c s))
       else split_once sep s).
    destruct (String.prefix sep (String c s)); [reflexivity | exact IH].
Qed.

Lemma str_drop_app (n : nat) (a b : string) :
  (n <= String.length a)%nat -> str_drop n (a ++ b) = str_drop n a ++ b.
Proof.
  revert a. induction n as [|n IH]; intros [|c a] H; simpl in *; try lia; auto.
  apply IH. lia.
Qed.

Lemma prefix_length (p s : string) : String.prefix p s = true -> (String.length p <= String.length s)%nat.
Proof.
  revert s. induction p as [|c p IH]; intros [|d s] H; simpl in *; try lia; try discriminate.
  destruct (ascii_dec c d); [apply IH in H; lia | discriminate].
Qed.

Lemma prefix_app (p a b : string) : String.prefix p a = true -> String.prefix p (a ++ b) = true.
Proof.
  revert a. induction p as [|c p IH]; intros a H; [destruct (a ++ b); reflexivity|].
  destruct a as [|d a]; [discriminate|]. simpl in *.
  destruct (ascii_dec c d); [apply IH; exact H | discriminate].
Qed.

Lemma prefix_app_inv (p a b : string) :
  (String.length p <= String.length a)%nat -> String.prefix p (a ++ b) = true -> String.prefix p a = true.
Proof.
  revert a. induction p as [|c p IH]; intros a Hl H; [destruct a; reflexivity|].
  destruct a as [|d a]; [simpl in Hl; lia|]. simpl in *.
  destruct (ascii_dec c d); [apply IH; [lia | exact H] | discriminate].
Qed.

Lemma split_once_length (sep a r : string) :
  split_once sep a = Some r -> (String.length sep <= String.length a)%nat.
Proof.
  induction a as [|c a IH]; intros H.
  - destruct sep; [simpl; lia | discriminate].
  - change (split_once sep (String c a)) with
      (if String.prefix sep (String c a) then Some (str_drop (String.length sep) (String c a))
       else split_once sep a) in H.
    destruct (String.prefix sep (String c a)) eqn:Hp.
    + apply prefix_length in Hp. exact Hp.
    + apply IH in H. simpl. lia.
Qed.

Lemma split_once_app (sep a b r : string) :
  split_once sep a = Some r -> split_once sep (a ++ b) = Some (r ++ b).
Proof.
  revert r. induction a as [|c a IH]; intros r H.
  - destruct sep; [|discriminate]. injection H as <-. destruct b; reflexivity.
  - change (split_once sep (String c a)) with
      (if String.prefix sep (String c a) then Some (str_drop (String.length sep) (String c a))
       else split_once sep a) in H.
    change (split_once sep (String c a ++ b)) with
      (if String.prefix sep (String c a ++ b) then Some (str_drop (String.length sep) (String c a ++ b))
       else split_once sep (a ++ b)).
    destruct (String.prefix sep (String c a)) eqn:Hp.
    + injection H as <-. rewrite (prefix_app _ _ b Hp).
      f_equal. apply (str_drop_app _ (String c a)). apply prefix_length. exact Hp.
    + destruct (String.prefix sep (String c a ++ b)) eqn:Hp'; [|apply IH; exact H].
      exfalso. apply split_once_length in H.
      rewrite (prefix_app_inv sep (String c a) b) in Hp; [discriminate | simpl; lia | exact Hp'].
Qed.

Lemma str_app_cons (x : ascii) (a b : string) : String x a ++ b = String x (a ++ b).
Proof. reflexivity. Qed.

Lemma str_app_assoc (a b c : string) : (a ++ b) ++ c = a ++ b ++ c.
Proof. induction a as [|x a IH]; [reflexivity|]. rewrite !str_app_cons, IH. reflexivity. Qed.


Lemma prefix_before_newline (sep a b : string) :
  no_newline sep -> String.prefix sep (a ++ newline ++ b) = true -> String.prefix sep a = true.
Proof.
  revert sep. induction a as [|x a IH]; intros sep Hn H.
  - destruct sep as [|c sep]; [reflexivity|]. exfalso.
    simpl in H. destruct (ascii_dec c (ascii_of_nat 10)) as [->|]; [|discriminate].
    apply (Hn (ascii_of_nat 10)); [left; reflexivity | reflexivity].
  - destruct sep as [|c sep]; [reflexivity|]. simpl in H |- *.
    destruct (ascii_dec c x); [|discriminate].
    apply IH; [intros d Hd; apply Hn; right; exact Hd | exact H].
Qed.

Lemma split_once_past_newline (sep a b : string) :
  no_newline sep -> sep <> EmptyString -> split_once sep a = None ->
  split_once sep (a ++ newline ++ b) = split_once sep b.
Proof.
  intros Hn Hne. induction a as [|x a IH]; intros H.
  - change (EmptyString ++ newline ++ b) with (String (ascii_of_nat 10) b).
    change (split_once sep (String (ascii_of_nat 10) b)) with
      (if String.prefix sep (String (ascii_of_nat 10) b)
       then Some (str_drop (String.length sep) (String (ascii_of_nat 10) b))
       else split_once sep b).
    destruct sep as [|c sep]; [congruence|]. simpl.
    destruct (ascii_dec c (ascii_of_nat 10)) as [->|]; [|reflexivity].
    exfalso. apply (Hn (ascii_of_nat 10)); [left; reflexivity | reflexivity].
  - change (split_once sep (String x a)) with
      (if String.prefix sep (String x a) then Some (str_drop (String.length sep) (String x a))
       else split_once sep a) in H.
    change (split_once sep (String x a ++ newline ++ b)) with
      (if String.prefix sep (String x a ++ newline ++ b)
       then Some (str_drop (String.length sep) (String x a ++ newline ++ b))
       else split_once sep (a ++ newline ++ b)).
    destruct (String.prefix sep (String x a)) eqn:Hp; [discriminate|].
    destruct (String.prefix sep (String x a ++ newline ++ b)) eqn:Hp'.
    + apply prefix_before_newline in Hp'; [congruence | exact Hn].
    + apply IH. exact H.
Qed.

Lemma marker_no_newline : no_newline "SOURCE NOTES".
Proof. intros c Hc. simpl in Hc. intuition (subst; discriminate). Qed.

Lemma split_once_title (x rest : string) :
  split_once "SOURCE NOTES" ("Title: " ++ x ++ rest) = split_once "SOURCE NOTES" (x ++ rest).
Proof. reflexivity. Qed.

Lemma split_once_description (x rest : string) :
  split_once "SOURCE NOTES" ("Description: " ++ x ++ rest) = split_once "SOURCE NOTES" (x ++ rest).
Proof. reflexivity. Qed.

Lemma split_once_guide (rest : string) :
  split_once "SOURCE NOTES" (prompt_guide ++ rest) = split_once "SOURCE NOTES" rest.
Proof. reflexivity. Qed.

Lemma split_once_sources (m : string) :
  split_once "SOURCE NOTES" (newline ++ "SOURCE NOTES (from PDFs/JSON):" ++ newline ++ m)
  = Some (" (from PDFs/JSON):" ++ newline ++ m).
Proof. reflexivity. Qed.

Lemma split_once_prompt (title description : option string) (m : string) :
  (forall x, title = Some x -> contains "SOURCE NOTES" x = false) ->
  (forall x, description = Some x -> contains "SOURCE NOTES" x = false) ->
  split_once "SOURCE NOTES" (_build_prompt title description m)
  = Some (" (from PDFs/JSON):" ++ newline ++ m).
Proof.
  intros Ht Hd. unfold _build_prompt. rewrite str_app_assoc.
  assert (Hskip : forall o lbl rest,
            (forall x, o = Some x -> contains "SOURCE NOTES" x = false) ->
            (forall x r, split_once "SOURCE NOTES" (lbl ++ x ++ r) = split_once "SOURCE NOTES" (x ++ r)) ->
            split_once "SOURCE NOTES" ((if truthy o then lbl ++ default "" o ++ newline else "") ++ rest)
            = split_once "SOURCE NOTES" rest).
  { intros o lbl rest Ho Hl. destruct (truthy o) eqn:Htr; [|reflexivity].
    destruct o as [x|]; [|discriminate]. simpl.
    rewrite !str_app_assoc, Hl. apply split_once_past_newline.
    - apply marker_no_newline.
    - discriminate.
    - specialize (Ho x eq_refl). rewrite contains_split_once in Ho.
      destruct (split_once "SOURCE NOTES" x); [discriminate | reflexivity]. }
  rewrite (Hskip title "Title: "); [| exact Ht | apply split_once_title].
  rewrite (Hskip description "Description: "); [| exact Hd | apply split_once_description].
  rewrite split_once_guide. apply split_once_sources.
Qed.

(** Extra X2. [generate_script] hands the local builder exactly the text after the first "SOURCE NOTES" of the prompt; when neither the title nor the description contains that marker, this is " (from PDFs/JSON):", a newline and the materials text. *)
Theorem generate_script_slices_materials (title description : option string) (m : string) :
  (forall x, title = Some x -> contains "SOURCE NOTES" x = false) ->
  (forall x, description = Some x -> contains "SOURCE NOTES" x = false) ->
  materials_slice (_build_prompt title description m) = " (from PDFs/JSON):" ++ newline ++ m.
Proof.
  intros Ht Hd. unfold materials_slice. rewrite contains_split_once.
  rewrite (split_once_prompt title description m Ht Hd). reflexivity.
Qed.

Lemma generate_script_slices_materials_witness :
  materials_slice (_build_prompt (Some "Demo") None "Cells divide.") =
  " (from PDFs/JSON):" ++ newline ++ "Cells divide.".
Proof.
  apply generate_script_slices_materials.
  - intros x Hx. injection Hx as <-. reflexivity.
  - intros x Hx. discriminate.
Defined.

(** Extra X3. When the title contains "SOURCE NOTES", the slice starts inside the title: it is the rest of the title after the marker followed by the whole remainder of the prompt, including the guide and the real source-notes header. *)
Theorem generate_script_slice_title_marker (t r : string) (description : option string) (m : string) :
  split_once "SOURCE NOTES" t = Some r ->
  materials_slice (_build_prompt (Some t) description m) =
  r ++ newline ++ (if truthy description then "Description: " ++ default "" description ++ newline else "")
    ++ prompt_guide ++ newline ++ "SOURCE NOTES (from PDFs/JSON):" ++ newline ++ m.
Proof.
  intros H. unfold materials_slice.
  assert (Ht : truthy (Some t) = true).
  { simpl. destruct t; [discriminate | reflexivity]. }
  assert (Hs : split_once "SOURCE NOTES" (_build_prompt (Some t) description m) =
     Some (r ++ newline ++ (if truthy description then "Description: " ++ default "" description ++ newline else "")
    ++ prompt_guide ++ newline ++ "SOURCE NOTES (from PDFs/JSON):" ++ newline ++ m)).
  { unfold _build_prompt. rewrite Ht. simpl default. rewrite !str_app_assoc.
    rewrite split_once_title. rewrite (split_once_app _ _ _ _ H). reflexivity. }
  rewrite contains_split_once, Hs. reflexivity.
Qed.

Lemma generate_script_slice_title_marker_witness :
  materials_slice (_build_prompt (Some "Notes: SOURCE NOTES") None "x") =
  "" ++ newline ++ "" ++ prompt_guide ++ newline ++ "SOURCE NOTES (from PDFs/JSON):" ++ newline ++ "x".
Proof. apply (generate_script_slice_title_marker "Notes: SOURCE NOTES" ""). reflexivity. Defined.

Lemma firstn_add {A} (a b : nat) (l : list A) :
  firstn (a + b) l = (firstn a l ++ firstn b (skipn a l))%list.
Proof.
  revert l. induction a as [|a IH]; intros l; [reflexivity|].
  destruct l as [|x l]; simpl; [destruct b; reflexivity | f_equal; apply IH].
Qed.

Lemma in_firstn_l {A} (n : nat) (l : list A) (x : A) : In x (firstn n l) -> In x l.
Proof. intros H. rewrite <- (firstn_skipn n l). apply in_or_app. left. exact H. Qed.

Lemma in_skipn_l {A} (n : nat) (l : list A) (x : A) : In x (skipn n l) -> In x l.
Proof. intros H. rewrite <- (firstn_skipn n l). apply in_or_app. right. exact H. Qed.

Lemma select_status_spec (status_ : option string) (values : list _State) (s : _State) :
  In s (select_status status_ values) ->
  In s values /\ (truthy status_ = true -> status_ = Some (status_str (status s))).
Proof.
  unfold select_status. destruct (truthy status_) eqn:Ht; intros H; [|split; [exact H | discriminate]].
  apply filter_In in H as [Hin Heq]. split; [exact Hin|]. intros _.
  apply String.eqb_eq in Heq. destruct status_ as [x|]; [|discriminate]. simpl in Heq. congruence.
Qed.

(** Extra X4. For a valid page ([1 <= limit <= 100], [offset >= 0]) [list_podcasts] returns the total number of jobs with the requested status and a page of [min limit (total - offset)] items, each the status view of a stored job with that status. *)
Theorem list_podcasts_page (values : list _State) (limit offset : Z) (status_ : option string) :
  (1 <= limit <= 100)%Z -> (0 <= offset)%Z ->
  exists items,
    list_podcasts values limit offset status_ = Some (items, length (select_status status_ values)) /\
    length items = Nat.min (Z.to_nat limit) (length (select_status status_ values) - Z.to_nat offset) /\
    (forall r, In r items -> exists s, In s values /\ r = _as_status s /\
                            (truthy status_ = true -> status_ = Some (resp_status r))).
Proof.
  intros Hl Ho. unfold list_podcasts.
  replace ((1 <=? limit) && (limit <=? 100) && (0 <=? offset))%Z with true
    by (symmetry; repeat rewrite andb_true_iff; repeat split; apply Z.leb_le; lia).
  eexists. split; [reflexivity|]. split.
  - rewrite length_map, length_firstn, length_skipn. lia.
  - intros r Hr. apply in_map_iff in Hr as [s [<- Hs]].
    apply in_firstn_l, in_skipn_l, select_status_spec in Hs as [Hin Hst].
    exists s. split; [exact Hin|]. split; [reflexivity|]. exact Hst.
Qed.

(** Extra X5. Reading the pages at offsets [0, limit, 2 limit, ...] one after the other gives the filtered jobs in order, with nothing skipped or repeated. *)
Theorem list_podcasts_pages_cover (values : list _State) (limit : Z) (status_ : option string) (n : nat) :
  (1 <= limit <= 100)%Z ->
  concat (map (fun k => match list_podcasts values limit (Z.of_nat k * limit) status_ with
                        | Some (items, _) => items | None => [] end) (seq 0 n))
  = map _as_status (firstn (n * Z.to_nat limit) (select_status status_ values)).
Proof.
  intros Hl. induction n as [|n IH]; [reflexivity|].
  rewrite seq_S, map_app, concat_app, IH. simpl.
  unfold list_podcasts.
  replace ((1 <=? limit) && (limit <=? 100) && (0 <=? Z.of_nat n * limit))%Z with true
    by (symmetry; repeat rewrite andb_true_iff; repeat split; apply Z.leb_le; lia).
  rewrite app_nil_r, <- map_app. f_equal.
  replace (Z.to_nat (Z.of_nat n * limit)) with (n * Z.to_nat limit)%nat by lia.
  replace (Z.to_nat limit + n * Z.to_nat limit)%nat with (n * Z.to_nat limit + Z.to_nat limit)%nat by lia.
  symmetry. apply firstn_add.
Qed.


Lemma list_podcasts_page_witness :
  exists items, list_podcasts witness_values 25 0 (Some "cancelled") = Some (items, 1%nat) /\
                length items = 1%nat.
Proof.
  destruct (list_podcasts_page witness_values 25 0 (Some "cancelled")) as [items [H1 [H2 _]]];
    [lia | lia |].
  exists items. split; [exact H1 | rewrite H2; reflexivity].
Defined.

Lemma list_podcasts_pages_cover_witness :
  concat (map (fun k => match list_podcasts witness_values 1 (Z.of_nat k * 1) None with
                        | Some (items, _) => items | None => [] end) (seq 0 2))
  = map _as_status witness_values.
Proof. apply (list_podcasts_pages_cover witness_values 1 None 2). lia. Defined.


(** Extra X7. An unknown id gives 404 on GET and on DELETE, and the DELETE leaves the store unchanged. *)
Theorem missing_job_404 (pid : string) (now : nat) (st : store) :
  st !! pid = None ->
  get_podcast pid st = None /\ cancel_or_delete_podcast pid now st = (st, None).
Proof. intros H. unfold get_podcast, cancel_or_delete_podcast. rewrite H. split; reflexivity. Qed.

(** Extra X8. Deleting a done or failed job removes it: a later GET and a second DELETE both give 404. *)
Theorem delete_finished_then_404 (pid : string) (now now' : nat) (st : store) (j : _State) :
  st !! pid = Some j -> status j = Done \/ status j = Failed ->
  let st' := fst (cancel_or_delete_podcast pid now st) in
  get_podcast pid st' = None /\ cancel_or_delete_podcast pid now' st' = (st', None).
Proof.
  intros Hj Hs. simpl.
  assert (Hd : fst (cancel_or_delete_podcast pid now st) = delete pid st).
  { unfold cancel_or_delete_podcast. rewrite Hj. destruct Hs as [-> | ->]; reflexivity. }
  rewrite Hd. apply missing_job_404. apply lookup_delete_eq.
Qed.

Lemma bootstrap_size (files : list (string * nat)) : forall st,
  size (fst (bootstrap_from_storage files st)) = (size st + snd (bootstrap_from_storage files st))%nat.
Proof.
  induction files as [|[stem mtime] rest IH]; intros st; simpl; [lia|].
  destruct (st !! stem) eqn:Hl; [apply IH|].
  destruct (bootstrap_from_storage rest (<[stem := bootstrap_state stem mtime]> st))
    as [st' n] eqn:Hb. simpl.
  pose proof (IH (<[stem := bootstrap_state stem mtime]> st)) as H.
  rewrite Hb in H. simpl in H. rewrite map_size_insert_None in H by exact Hl. lia.
Qed.

Lemma bootstrap_all_present (files : list (string * nat)) : forall st stem mtime,
  In (stem, mtime) files -> is_Some (fst (bootstrap_from_storage files st) !! stem).
Proof.
  induction files as [|[s0 m0] rest IH]; intros st stem mtime Hin; [destruct Hin|].
  simpl. destruct Hin as [Heq | Hin].
  - injection Heq as <- <-. destruct (st !! s0) eqn:Hl.
    + eexists. apply bootstrap_keeps. exact Hl.
    + destruct (bootstrap_from_storage rest (<[s0 := bootstrap_state s0 m0]> st)) as [st' n] eqn:Hb.
      simpl. change st' with (fst (st', n)). rewrite <- Hb.
      eexists. apply bootstrap_keeps. apply lookup_insert_eq.
  - destruct (st !! s0) eqn:Hl; [eapply IH; exact Hin|].
    destruct (bootstrap_from_storage rest (<[s0 := bootstrap_state s0 m0]> st)) as [st' n] eqn:Hb.
    simpl. change st' with (fst (st', n)). rewrite <- Hb. eapply IH. exact Hin.
Qed.

Lemma bootstrap_noop (files : list (string * nat)) : forall st,
  (forall stem mtime, In (stem, mtime) files -> is_Some (st !! stem)) ->
  bootstrap_from_storage files st = (st, 0%nat).
Proof.
  induction files as [|[s0 m0] rest IH]; intros st H; [reflexivity|].
  simpl. destruct (H s0 m0 (or_introl eq_refl)) as [v Hv]. rewrite Hv.
  apply IH. intros stem mtime Hin. apply (H stem mtime). right. exact Hin.
Qed.

(** Extra X9. [rescan_storage] reports a total equal to the number of jobs before the scan plus the number it reports as added. *)
Theorem rescan_storage_counts (files : list (string * nat)) (st : store) :
  snd (snd (rescan_storage files st)) = (size st + fst (snd (rescan_storage files st)))%nat.
Proof.
  unfold rescan_storage. pose proof (bootstrap_size files st) as H.
  destruct (bootstrap_from_storage files st) as [st' n]. simpl in *. exact H.
Qed.

(** Extra X10. A second rescan over the same files adds nothing and leaves the store unchanged. *)
Theorem rescan_storage_idempotent (files : list (string * nat)) (st : store) :
  let st' := fst (rescan_storage files st) in
  rescan_storage files st' = (st', (0%nat, size st')).
Proof.
  unfold rescan_storage.
  pose proof (bootstrap_all_present files st) as Hp.
  destruct (bootstrap_from_storage files st) as [st' n]. simpl in *.
  rewrite (bootstrap_noop files st'); [reflexivity|].
  intros stem mtime Hin. exact (Hp stem mtime Hin).
Qed.


Lemma missing_job_404_witness :
  get_podcast "nope" run_s6 = None /\ cancel_or_delete_podcast "nope" 9 run_s6 = (run_s6, None).
Proof. apply missing_job_404. reflexivity. Defined.

Lemma delete_finished_then_404_witness :
  get_podcast "job1" (fst (cancel_or_delete_podcast "job1" 7 run_s6)) = None /\
  cancel_or_delete_podcast "job1" 8 (fst (cancel_or_delete_podcast "job1" 7 run_s6))
    = (fst (cancel_or_delete_podcast "job1" 7 run_s6), None).
Proof.
  eapply (delete_finished_then_404 "job1" 7 8 run_s6); [vm_compute; reflexivity | left; reflexivity].
Defined.

(** Extra X1. [_resolve_materials_dirs] picks at most one directory from the list: the second when the set is "2" and there are at least two, else the first. *)
Theorem resolve_materials_dirs_choice (materials_dirs : list string) (materials_set : option string) :
  let r := _resolve_materials_dirs materials_dirs materials_set in
  (forall d, In d r -> In d materials_dirs) /\
  length r = Nat.min 1 (length materials_dirs) /\
  (materials_set = Some "2" -> (2 <= length materials_dirs)%nat -> r = [nth 1 materials_dirs ""]) /\
  (materials_set <> Some "2" \/ (length materials_dirs < 2)%nat -> r = firstn 1 materials_dirs).
Proof.
  simpl. unfold _resolve_materials_dirs.
  destruct materials_dirs as [|d0 rest]; [repeat split; simpl; try tauto; intros; lia|].
  assert (His2 : (match materials_set with Some s => String.eqb s "2" | None => false end) = true
                 <-> materials_set = Some "2").
  { destruct materials_set as [s|]; [rewrite String.eqb_eq; split; congruence | split; discriminate]. }
  destruct (match materials_set with Some s => String.eqb s "2" | None => false end) eqn:Hs;
  destruct rest as [|d1 rest]; simpl; (split; [| split; [| split]]); try (intros d Hd; simpl in Hd |- *; tauto);
    try reflexivity; try lia.
  all: try (intros H; reflexivity).
  all: try (intros H1 H2; simpl in H2; lia).
  all: try (intros H; apply His2 in H; discriminate).
  all: try (intros [H|H]; [exfalso; apply H, His2; reflexivity | simpl in H; lia]).
Qed.

Lemma resolve_materials_dirs_choice_witness :
  _resolve_materials_dirs ["m1"; "m2"] (Some "2") = ["m2"].
Proof. apply (proj1 (proj2 (proj2 (resolve_materials_dirs_choice ["m1"; "m2"] (Some "2"))))); [reflexivity | simpl; lia]. Defined.

(* ------------------------------------------------------------------ *)
(** ** Properties of the content-pillar composer *)

Lemma is_infix_trans {A} (l1 l2 l3 : list A) : is_infix l1 l2 -> is_infix l2 l3 -> is_infix l1 l3.
Proof.
  intros [a [b ->]] [c [d ->]]. exists (c ++ a)%list, (b ++ d)%list. rewrite <- !app_assoc. reflexivity.
Qed.

Lemma sub_runs_in (p : ascii -> bool) (b : bool) (l : list ascii) (c : ascii) :
  In c (sub_runs p b l) -> (In c l /\ p c = false) \/ c = " "%char.
Proof.
  revert b; induction l as [|x r IH]; intros b H; simpl in H; [contradiction|].
  destruct (p x) eqn:Hp.
  - destruct b; [| destruct H as [<-|H]; [right; reflexivity|]];
      (destruct (IH _ H) as [[H1 H2]|H1]; [left; split; [right; exact H1 | exact H2] | right; exact H1]).
  - destruct H as [<-|H]; [left; split; [left; reflexivity | exact Hp]|].
    destruct (IH _ H) as [[H1 H2]|H1]; [left; split; [right; exact H1 | exact H2] | right; exact H1].
Qed.

Lemma sub_runs_head (p : ascii -> bool) (l : list ascii) :
  match sub_runs p true l with c :: _ => p c = false | [] => True end.
Proof.
  induction l as [|x r IH]; simpl; [exact I|]. destruct (p x) eqn:Hp; [exact IH | exact Hp].
Qed.

Lemma sub_runs_no_pair (p : ascii -> bool) (b : bool) (l k1 k2 : list ascii) :
  p " "%char = true -> sub_runs p b l <> (k1 ++ " "%char :: " "%char :: k2)%list.
Proof.
  intros Hsp. revert b k1; induction l as [|x r IH]; intros b k1 H; simpl in H.
  - destruct k1; discriminate.
  - destruct (p x) eqn:Hp.
    + destruct b; [exact (IH true k1 H)|].
      destruct k1 as [|y k1]; simpl in H; apply (f_equal (@tl ascii)) in H; simpl in H.
      * pose proof (sub_runs_head p r) as Hh. rewrite H in Hh. congruence.
      * exact (IH true k1 H).
    + destruct k1 as [|y k1]; simpl in H.
      * injection H as H0 _. subst. congruence.
      * apply (f_equal (@tl ascii)) in H. exact (IH false k1 H).
Qed.

Lemma drop_while_split (p : ascii -> bool) (l : list ascii) :
  exists pre, l = (pre ++ drop_while p l)%list.
Proof.
  induction l as [|x r [pre IH]]; simpl; [exists []; reflexivity|].
  destruct (p x); [exists (x :: pre); simpl; f_equal; exact IH | exists []; reflexivity].
Qed.

Lemma strip_infix (s : string) : is_infix (list_ascii_of_string (strip s)) (list_ascii_of_string s).
Proof.
  unfold strip. rewrite list_ascii_of_string_of_list_ascii.
  destruct (drop_while_split is_space (list_ascii_of_string s)) as [pre1 H1].
  destruct (drop_while_split is_space (rev (drop_while is_space (list_ascii_of_string s)))) as [pre2 H2].
  exists pre1, (rev pre2).
  assert (E : drop_while is_space (list_ascii_of_string s) =
              (rev (drop_while is_space (rev (drop_while is_space (list_ascii_of_string s)))) ++ rev pre2)%list).
  { rewrite <- (rev_involutive (drop_while is_space (list_ascii_of_string s))) at 1.
    rewrite H2 at 1. rewrite rev_app_distr. reflexivity. }
  rewrite H1 at 1. rewrite E at 1. reflexivity.
Qed.

Lemma drop_while_head (p : ascii -> bool) (l : list ascii) :
  match drop_while p l with c :: _ => p c = false | [] => True end.
Proof.
  induction l as [|x r IH]; simpl; [exact I|]. destruct (p x) eqn:Hp; [exact IH | exact Hp].
Qed.

Lemma drop_while_fixed (p : ascii -> bool) (l : list ascii) :
  match l with c :: _ => p c = false | [] => True end -> drop_while p l = l.
Proof. destruct l as [|c r]; simpl; [reflexivity|]. intros ->. reflexivity. Qed.

Lemma drop_while_idem (p : ascii -> bool) (l : list ascii) :
  drop_while p (drop_while p l) = drop_while p l.
Proof. apply drop_while_fixed, drop_while_head. Qed.

Lemma strip_idem (s : string) : strip (strip s) = strip s.
Proof.
  unfold strip. rewrite list_ascii_of_string_of_list_ascii.
  set (z := drop_while is_space (list_ascii_of_string s)).
  set (y := rev (drop_while is_space (rev z))).
  assert (Hy : drop_while is_space y = y).
  { destruct (drop_while_split is_space (rev z)) as [pre2 H2].
    assert (E : z = (y ++ rev pre2)%list).
    { unfold y. rewrite <- (rev_involutive z) at 1. rewrite H2 at 1. rewrite rev_app_distr. reflexivity. }
    apply drop_while_fixed. destruct y as [|d y'] eqn:Ey; [exact I|].
    pose proof (drop_while_head is_space (list_ascii_of_string s)) as Hh. fold z in Hh.
    rewrite E in Hh. exact Hh. }
  rewrite Hy. unfold y. rewrite rev_involutive, drop_while_idem. reflexivity.
Qed.

Lemma sent_split_aux_infix (sk pt : bool) (cur l p : list ascii) :
  (sk = true -> cur = []) -> In p (sent_split_aux sk pt cur l) -> is_infix p (rev cur ++ l)%list.
Proof.
  revert sk pt cur. induction l as [|c r IH]; intros sk pt cur Hsk H; simpl in H.
  - destruct H as [<-|[]]. exists [], []. rewrite !app_nil_r. reflexivity.
  - destruct (sk && is_space c) eqn:E1.
    + apply andb_prop in E1 as [-> _]. rewrite (Hsk eq_refl) in H |- *. simpl.
      pose proof (IH true false [] (fun _ => eq_refl) H) as Hi. simpl in Hi.
      apply (is_infix_trans _ r); [exact Hi|]. exists [c], []. rewrite app_nil_r. reflexivity.
    + destruct (pt && is_space c) eqn:E2.
      * destruct H as [<-|H]; [exists [], (c :: r); reflexivity|].
        pose proof (IH true false [] (fun _ => eq_refl) H) as Hi. simpl in Hi.
        apply (is_infix_trans _ r); [exact Hi|]. exists (rev cur ++ [c])%list, []. rewrite app_nil_r, <- app_assoc. reflexivity.
      * assert (Hi := IH false (is_terminator c) (c :: cur) (fun Hf => ltac:(discriminate Hf)) H).
        simpl in Hi. rewrite <- app_assoc in Hi. exact Hi.
Qed.

Lemma list_ascii_of_string_app (a b : string) :
  list_ascii_of_string (a ++ b) = (list_ascii_of_string a ++ list_ascii_of_string b)%list.
Proof. induction a as [|x a IH]; [reflexivity|]. rewrite str_app_cons. simpl. f_equal. exact IH. Qed.

Lemma infix_in {A} (l1 l2 : list A) (x : A) : is_infix l1 l2 -> In x l1 -> In x l2.
Proof. intros [k1 [k2 ->]] H. apply in_or_app. right. apply in_or_app. left. exact H. Qed.

Lemma infix_no_pair (l1 l2 : list ascii) :
  is_infix l1 l2 -> (forall k1 k2, l2 <> (k1 ++ " "%char :: " "%char :: k2)%list) ->
  forall k1 k2, l1 <> (k1 ++ " "%char :: " "%char :: k2)%list.
Proof.
  intros [j1 [j2 ->]] H k1 k2 E. apply (H (j1 ++ k1)%list (k2 ++ j2)%list). rewrite E.
  rewrite <- !app_assoc. reflexivity.
Qed.

(** Extra X12. Every sentence [_extract_sentences_from_chunks] returns passes [_readable_sentence], is already stripped, contains none of the symbol characters the cleanup replaces, has the plain space as its only whitespace character and never two spaces in a row. *)
Theorem extracted_sentences_clean (pillar : list (string * json)) (s : string) :
  In s (_extract_sentences_from_chunks pillar) ->
  _readable_sentence s = true /\ strip s = s /\
  (forall c, In c (list_ascii_of_string s) ->
     is_symbol c = false /\ (is_space c = true -> c = " "%char)) /\
  (forall a b, s <> a ++ "  " ++ b).
Proof.
  unfold _extract_sentences_from_chunks. intros H.
  apply in_concat in H as [ss [Hss Hs]]. apply in_map_iff in Hss as [ch [Hch _]].
  destruct (chunk_text ch) as [t0|]; [| subst ss; contradiction]. subst ss.
  unfold chunk_sentences in Hs.
  set (A := sub_runs is_symbol false (list_ascii_of_string t0)) in *.
  set (B := sub_runs is_space false A).
  set (T := strip (re_sub_runs is_space (re_sub_runs is_symbol t0))) in *.
  assert (HT : is_infix (list_ascii_of_string T) B).
  { unfold T. eapply is_infix_trans; [apply strip_infix|]. unfold re_sub_runs at 1.
    rewrite list_ascii_of_string_of_list_ascii. unfold re_sub_runs.
    rewrite list_ascii_of_string_of_list_ascii. exists [], []. rewrite app_nil_r. reflexivity. }
  destruct (String.eqb T "") ; [contradiction|].
  apply filter_In in Hs as [Hs Hread].
  apply in_map_iff in Hs as [x [<- Hx]]. apply filter_In in Hx as [Hx _].
  unfold sent_split in Hx. apply in_map_iff in Hx as [piece [<- Hp]].
  apply sent_split_aux_infix in Hp; [| discriminate]. simpl in Hp.
  assert (HI : is_infix (list_ascii_of_string (strip (string_of_list_ascii piece))) B).
  { eapply is_infix_trans; [apply strip_infix|]. rewrite list_ascii_of_string_of_list_ascii.
    eapply is_infix_trans; [exact Hp | exact HT]. }
  split; [exact Hread|]. split; [apply strip_idem|]. split.
  - intros c Hc. apply (infix_in _ _ c HI) in Hc.
    apply sub_runs_in in Hc as [[Hc Hsp]| ->]; [|split; reflexivity].
    apply sub_runs_in in Hc as [[_ Hsy]| ->]; [|split; reflexivity].
    split; [exact Hsy|]. intros E. congruence.
  - intros a b E. apply (infix_no_pair _ _ HI (fun k1 k2 => sub_runs_no_pair is_space false A k1 k2 eq_refl)
      (list_ascii_of_string a) (list_ascii_of_string b)).
    rewrite E, !list_ascii_of_string_app. reflexivity.
Qed.

Lemma skipn_cons_nth {A} (l : list A) (i : nat) (d : A) :
  (i < length l)%nat -> skipn i l = nth i l d :: skipn (S i) l.
Proof.
  revert l; induction i as [|i IH]; intros [|x l] H; simpl in *; try lia; [reflexivity|].
  apply IH. lia.
Qed.

Lemma chunk_loop_done (fuel : nat) (sents : list string) (seg i : nat) :
  (length sents <= i)%nat -> chunk_loop fuel sents seg i = [].
Proof.
  intros H. destruct fuel; [reflexivity|]. simpl.
  destruct (Nat.ltb_spec i (length sents)); [lia | reflexivity].
Qed.

Lemma chunk_loop_blocks (sents : list string) : forall m fuel k,
  (m + k = (length sents + 6) / 7)%nat -> (m <= fuel)%nat ->
  chunk_loop fuel sents (S k) (7 * k) = flat_map (chunk_block sents) (seq k m).
Proof.
  pose proof (Nat.div_mod (length sents + 6) 7 ltac:(lia)) as Hd.
  pose proof (Nat.mod_upper_bound (length sents + 6) 7 ltac:(lia)) as Hu.
  set (q := (length sents + 6) / 7) in *. set (r := (length sents + 6) mod 7) in *.
  induction m as [|m IH]; intros fuel k Hm Hf.
  - apply chunk_loop_done. lia.
  - destruct fuel as [|f]; [lia|].
    assert (Hlt : (7 * k < length sents)%nat) by lia.
    cbn [chunk_loop]. destruct (Nat.ltb_spec (7 * k) (length sents)); [|lia].
    rewrite (skipn_cons_nth sents (7 * k) "") by exact Hlt.
    cbn [seq flat_map]. unfold chunk_block at 1.
    rewrite (skipn_cons_nth sents (7 * k) "") by exact Hlt.
    cbn [firstn length].
    rewrite length_firstn, length_skipn.
    rewrite <- !app_assoc. f_equal. f_equal. f_equal.
    destruct m as [|m].
    + cbn [seq flat_map]. apply chunk_loop_done. lia.
    + replace (7 * k + Nat.max 5 (Nat.min 7 (S (Nat.min 6 (length sents - S (7 * k))))))%nat
        with (7 * S k)%nat by lia.
      apply IH; lia.
Qed.

(** Extra X13. The chunked fallback of [_two_host_local_from_pillar] cuts the first 180 sentences into consecutive windows of 7 (the last one shorter): segment [k+1] is headed by sentence [7k], speaks sentences [7k .. 7k+6] with the speaker set by the parity of the global sentence index, and is followed by the checkpoint line when [k+2] is a multiple of 4. *)
Theorem chunk_fallback_blocks (sents0 : list string) :
  sents0 <> [] ->
  chunk_fallback sents0 =
  flat_map (chunk_block (firstn 180 sents0)) (seq 0 ((length (firstn 180 sents0) + 6) / 7)).
Proof.
  intros Hne. unfold chunk_fallback. destruct sents0 as [|s0 rest]; [congruence|].
  set (sents := firstn 180 (s0 :: rest)).
  assert (Hl : (1 <= length sents)%nat) by (unfold sents; simpl; lia).
  apply (chunk_loop_blocks sents _ (length sents) 0).
  - lia.
  - apply Nat.Div0.div_le_upper_bound; lia.
Qed.

Lemma chunk_fallback_blocks_witness :
  chunk_fallback ["Cells divide to grow and repair tissue."; "Membranes control what enters a cell."] =
  flat_map (chunk_block (firstn 180 ["Cells divide to grow and repair tissue."; "Membranes control what enters a cell."]))
    (seq 0 ((length (firstn 180 ["Cells divide to grow and repair tissue."; "Membranes control what enters a cell."]) + 6) / 7)).
Proof. apply chunk_fallback_blocks. discriminate. Defined.


Lemma opt_hostB_labelled (b : bool) (x : string) : Forall labelled (if b then [hostB x] else []).
Proof. destruct b; repeat constructor. exists x; right; reflexivity. Qed.

Lemma opt_hostB_labelled' (b : bool) (x : string) : Forall labelled (if b then [] else [hostB x]).
Proof. destruct b; repeat constructor. exists x; right; reflexivity. Qed.

Lemma window_lines_labelled (i j : nat) (w : list string) : Forall labelled (window_lines i j w).
Proof.
  revert j; induction w as [|s rest IH]; intros j; cbn [window_lines]; constructor; [|apply IH].
  destruct ((i + j) mod 2 =? 0)%nat; eexists; [left | right]; reflexivity.
Qed.

Lemma chunk_loop_labelled (fuel : nat) (sents : list string) (seg i : nat) :
  Forall labelled (chunk_loop fuel sents seg i).
Proof.
  revert seg i; induction fuel as [|f IH]; intros seg i; cbn [chunk_loop]; [constructor|].
  destruct (i <? length sents)%nat; [|constructor].
  destruct (firstn 7 (skipn i sents)) as [|w0 ws]; [constructor|].
  constructor; [eexists; left; reflexivity|].
  apply Forall_app; split; [apply window_lines_labelled|].
  apply Forall_app; split; [|apply IH].
  apply opt_hostB_labelled.
Qed.

Lemma chunk_fallback_labelled (sents : list string) : Forall labelled (chunk_fallback sents).
Proof.
  unfold chunk_fallback. destruct sents; [|apply chunk_loop_labelled].
  repeat constructor. eexists; right; reflexivity.
Qed.

Lemma subtopic_lines_labelled (s_idx : nat) (subs : list json) (ls : list string) :
  subtopic_lines s_idx subs = Ok ls -> Forall labelled ls.
Proof.
  revert s_idx ls; induction subs as [|sub rest IH]; intros s_idx ls H; cbn [subtopic_lines] in H.
  - injection H as <-. constructor.
  - destruct (obind _ py_strip) as [s_name|e]; [|discriminate]. simpl in H.
    destruct (obind _ py_strip) as [s_sum|e]; [|discriminate]. simpl in H.
    destruct (subtopic_lines (S s_idx) rest) as [ls'|e] eqn:E; [|discriminate]. simpl in H.
    injection H as <-. constructor; [eexists; left; reflexivity|].
    apply Forall_app; split; [|exact (IH _ _ E)].
    apply opt_hostB_labelled'.
Qed.

Lemma topic_lines_labelled (t_idx : nat) (topics : list json) (ls : list string) :
  topic_lines t_idx topics = Ok ls -> Forall labelled ls.
Proof.
  revert t_idx ls; induction topics as [|topic rest IH]; intros t_idx ls H; cbn [topic_lines] in H.
  - injection H as <-. constructor.
  - destruct (obind _ py_strip) as [t_name|e]; [|discriminate]. cbn [obind] in H.
    destruct (obind _ py_strip) as [t_sum|e]; [|discriminate]. cbn [obind] in H.
    destruct (py_get_or topic "subtopics" "items" (JList [])) as [subs|e]; [|discriminate]. cbn [obind] in H.
    destruct (match subs with
              | JList l => _ | _ => _ end) as [body|e] eqn:Eb; [|discriminate]. cbn [obind] in H.
    destruct (topic_lines (S t_idx) rest) as [more|e] eqn:Em; [|discriminate]. cbn [obind] in H.
    injection H as <-. rewrite <- ?app_assoc. constructor; [eexists; left; reflexivity|].
    apply Forall_app; split; [apply opt_hostB_labelled'|].
    apply Forall_app; split; [|exact (IH _ _ Em)].
    destruct subs; try (injection Eb as <-; constructor).
    destruct (subtopic_lines 1 l) as [ls0|e] eqn:E; [|discriminate]. cbn [obind] in Eb.
    injection Eb as <-. apply Forall_app; split; [exact (subtopic_lines_labelled _ _ _ E) | apply opt_hostB_labelled].
Qed.

Lemma py_strip_ok (v : json) (t : string) : py_strip v = Ok t -> strip t = t.
Proof. destruct v; simpl; intros H; try discriminate. injection H as <-. apply strip_idem. Qed.

(** Extra X14. A script [_two_host_local_from_pillar] returns is its three intro lines (with the stripped title), then lines that each start with "[Host A] " or "[Host B] ", then its two closing lines, joined by newlines. *)
Theorem pillar_script_shape (pillar : list (string * json)) (script : string) :
  _two_host_local_from_pillar pillar = Ok script ->
  exists title body,
    script = String.concat newline
      ([hostA "Welcome to the podcast.";
        hostB ("Today we dive into " ++ title ++ ", using the provided content as our guide.");
        hostA "We will move topic by topic and keep the language clear and practical."] ++ body ++
       [hostA "That wraps up our walkthrough of the content pillar.";
        hostB "For full context, review the original documents alongside these notes. Thanks for listening."])%list /\
    strip title = title /\
    Forall labelled body.
Proof.
  unfold _two_host_local_from_pillar. intros H.
  destruct (py_strip _) as [title|e] eqn:Et; [|discriminate]. simpl in H.
  destruct (match _ with JList (_ :: _) => _ | _ => _ end) as [body|e] eqn:Eb; [|discriminate].
  simpl in H. injection H as <-. exists title, body. split; [reflexivity|].
  split; [exact (py_strip_ok _ _ Et)|].
  destruct (if py_truthy (dict_get "topics" pillar) then _ else _) as [| | | | |l|];
    try (injection Eb as <-; apply chunk_fallback_labelled).
  destruct l; [injection Eb as <-; apply chunk_fallback_labelled|].
  exact (topic_lines_labelled _ _ _ Eb).
Qed.

Lemma pillar_script_shape_witness :
  _two_host_local_from_pillar demo_pillar = Ok demo_pillar_script /\
  exists title body,
    demo_pillar_script = String.concat newline
      ([hostA "Welcome to the podcast.";
        hostB ("Today we dive into " ++ title ++ ", using the provided content as our guide.");
        hostA "We will move topic by topic and keep the language clear and practical."] ++ body ++
       [hostA "That wraps up our walkthrough of the content pillar.";
        hostB "For full context, review the original documents alongside these notes. Thanks for listening."])%list /\
    strip title = title /\
    Forall labelled body.
Proof.
  assert (H : _two_host_local_from_pillar demo_pillar = Ok demo_pillar_script) by (vm_compute; reflexivity).
  split; [exact H | exact (pillar_script_shape demo_pillar demo_pillar_script H)].
Defined.

(** Extra X15. A truthy pillar title that is not a string makes [_two_host_local_from_pillar] raise the [AttributeError] of [.strip()] on its type. *)
Theorem pillar_title_not_str (pillar : list (string * json)) :
  py_truthy (dict_get "title" pillar) = true ->
  (forall s, dict_get "title" pillar <> JStr s) ->
  _two_host_local_from_pillar pillar = Raise (no_attribute (dict_get "title" pillar) "strip").
Proof.
  intros Ht Hs. unfold _two_host_local_from_pillar. rewrite Ht.
  destruct (dict_get "title" pillar) eqn:E; try reflexivity. exfalso. exact (Hs s eq_refl).
Qed.

Lemma pillar_title_not_str_witness :
  _two_host_local_from_pillar [("title", JInt 7%Z)] = Raise "'int' object has no attribute 'strip'".
Proof.
  apply (pillar_title_not_str [("title", JInt 7%Z)]); [reflexivity | intros s Hs; discriminate].
Defined.

(** Extra X16. When the title is a non-empty string and the first topic is not a dict, [_two_host_local_from_pillar] raises the [AttributeError] of [.get] on that topic type. *)
Theorem pillar_topic_not_dict (pillar : list (string * json)) (t : string) (v : json) (rest : list json) :
  dict_get "title" pillar = JStr t -> t <> "" ->
  dict_get "topics" pillar = JList (v :: rest) ->
  (forall kvs, v <> JObj kvs) ->
  _two_host_local_from_pillar pillar = Raise (no_attribute v "get").
Proof.
  intros Ht Hne Htp Hv. unfold _two_host_local_from_pillar. rewrite Ht, Htp.
  assert (Et : py_truthy (JStr t) = true).
  { simpl. destruct (String.eqb_spec t ""); [contradiction | reflexivity]. }
  rewrite Et. cbn [py_truthy py_strip obind topic_lines].
  destruct v; try reflexivity. exfalso. exact (Hv kvs eq_refl).
Qed.

Lemma pillar_topic_not_dict_witness :
  _two_host_local_from_pillar [("title", JStr "Bio"); ("topics", JList [JStr "Cells"])] =
  Raise "'str' object has no attribute 'get'".
Proof.
  apply (pillar_topic_not_dict _ "Bio" (JStr "Cells") []);
    [reflexivity | discriminate | reflexivity | intros kvs H; discriminate].
Defined.

(** Extra X17. A pillar without the keys title, document_title, topics, sections, chunks and output gives the six-line brief overview about "the document". *)
Theorem pillar_missing_keys_brief (pillar : list (string * json)) :
  Forall (fun k => dict_lookup k pillar = None)
    ["title"; "document_title"; "topics"; "sections"; "chunks"; "output"] ->
  _two_host_local_from_pillar pillar =
  Ok (String.concat newline
        [hostA "Welcome to the podcast.";
         hostB "Today we dive into the document, using the provided content as our guide.";
         hostA "We will move topic by topic and keep the language clear and practical.";
         hostB "We received limited structured notes, so this will be a brief overview.";
         hostA "That wraps up our walkthrough of the content pillar.";
         hostB "For full context, review the original documents alongside these notes. Thanks for listening."]).
Proof.
  intros H. repeat (apply Forall_cons_iff in H as [? H]).
  unfold _two_host_local_from_pillar, _extract_sentences_from_chunks, pillar_chunks, dict_get.
  repeat match goal with Hk : dict_lookup _ pillar = None |- _ => rewrite Hk; clear Hk end.
  reflexivity.
Qed.

Lemma pillar_missing_keys_brief_witness :
  _two_host_local_from_pillar [("summary", JStr "Notes")] =
  Ok (String.concat newline
        [hostA "Welcome to the podcast.";
         hostB "Today we dive into the document, using the provided content as our guide.";
         hostA "We will move topic by topic and keep the language clear and practical.";
         hostB "We received limited structured notes, so this will be a brief overview.";
         hostA "That wraps up our walkthrough of the content pillar.";
         hostB "For full context, review the original documents alongside these notes. Thanks for listening."]).
Proof. apply pillar_missing_keys_brief. repeat constructor. Defined.

Lemma extracted_sentences_clean_witness :
  let s := "Cells divide to grow and repair tissue." in
  _readable_sentence s = true /\ strip s = s /\
  (forall c, In c (list_ascii_of_string s) ->
     is_symbol c = false /\ (is_space c = true -> c = " "%char)) /\
  (forall a b, s <> a ++ "  " ++ b).
Proof.
  apply (extracted_sentences_clean [("chunks", JList [JObj [("text", JStr "## Cells divide to   grow and repair tissue. ok")]])]).
  vm_compute. left. reflexivity.
Defined.

(** ** Properties of the local two-host dialogue and of [generate_script] *)

Lemma dialogue_segments_labelled (seg lc : nat) (paras : list string) :
  Forall labelled (dialogue_segments seg lc paras).
Proof.
  revert seg lc; induction paras as [|para rest IH]; intros seg lc; cbn [dialogue_segments]; [constructor|].
  destruct (readable_of para) as [|title ts]; [apply IH|].
  constructor; [eexists; left; reflexivity|].
  apply Forall_app; split; [apply window_lines_labelled|].
  apply Forall_app; split; [apply opt_hostB_labelled | apply IH].
Qed.

(** Extra X18: the script built by [_two_host_local_dialogue] always opens with
    the two fixed intro lines and closes with the two fixed outro lines, and
    every line between them is spoken by Host A or Host B. *)
Theorem dialogue_script_shape (materials_text : string) :
  exists body,
    _two_host_local_dialogue materials_text =
      String.concat newline (dialogue_intro ++ body ++ dialogue_outro)%list /\
    Forall labelled body.
Proof.
  eexists. split; [reflexivity | apply dialogue_segments_labelled].
Qed.

Lemma concat_hostA_nonempty (s : string) (l : list string) :
  String.concat newline (hostA s :: l) <> "".
Proof.
  destruct l as [|y l]; cbn [String.concat]; unfold hostA; rewrite ?str_app_assoc, ?str_app_cons; discriminate.
Qed.

(** Extra X19: [generate_script] returns the API answer when it is a non-empty
    string; when there is no client, the call raises, or the answer is empty,
    it returns the local dialogue built from the materials slice of the prompt;
    and its result is never the empty string. *)
Theorem generate_script_result (api : option (outcome string)) (prompt : string) :
  (forall c, api = Some (Ok c) -> c <> "" -> generate_script api prompt = c) /\
  ((forall c, api = Some (Ok c) -> c = "") ->
   generate_script api prompt = _two_host_local_dialogue (materials_slice prompt)) /\
  generate_script api prompt <> "".
Proof.
  assert (Hd : forall m, _two_host_local_dialogue m <> "").
  { intros m. unfold _two_host_local_dialogue, dialogue_intro. apply concat_hostA_nonempty. }
  unfold generate_script. split; [|split].
  - intros c -> Hc. destruct (String.eqb_spec c ""); [contradiction | reflexivity].
  - intros H. destruct api as [[c|e]|]; try reflexivity.
    rewrite (H c eq_refl). reflexivity.
  - destruct api as [[c|e]|]; try apply Hd.
    destruct (String.eqb_spec c ""); [apply Hd | exact n].
Qed.

Lemma generate_script_result_witness :
  generate_script (Some (Ok "Host A: Hello.")) "notes" = "Host A: Hello." /\
  generate_script (Some (Raise "timeout")) "notes" = _two_host_local_dialogue (materials_slice "notes").
Proof.
  split.
  - apply (proj1 (generate_script_result (Some (Ok "Host A: Hello.")) "notes") "Host A: Hello.");
      [reflexivity | discriminate].
  - apply (proj1 (proj2 (generate_script_result (Some (Raise "timeout")) "notes"))).
    intros c Hc. discriminate.
Defined.

Lemma forall_list_filter {A : Type} (Q : A -> Prop) (f : A -> bool) (l : list A) :
  Forall Q l -> Forall Q (List.filter f l).
Proof. intros H. induction H as [|x l Hx H IH]; cbn [List.filter]; [constructor|]. destruct (f x); [constructor|]; assumption. Qed.

Section Chars.
Variable P : ascii -> Prop.

Lemma chars_app (a b : string) :
  Forall P (list_ascii_of_string a) -> Forall P (list_ascii_of_string b) ->
  Forall P (list_ascii_of_string (a ++ b)).
Proof. intros Ha Hb. rewrite list_ascii_of_string_app. apply Forall_app; split; assumption. Qed.

Lemma chars_strip (s : string) :
  Forall P (list_ascii_of_string s) -> Forall P (list_ascii_of_string (strip s)).
Proof.
  intros H. apply List.Forall_forall. intros c Hc.
  apply (infix_in _ _ c (strip_infix s)) in Hc. rewrite List.Forall_forall in H. exact (H c Hc).
Qed.

Lemma chars_rev_cur (cur : list ascii) :
  Forall P cur -> Forall P (list_ascii_of_string (string_of_list_ascii (rev cur))).
Proof. intros H. rewrite list_ascii_of_string_of_list_ascii. apply Forall_rev. exact H. Qed.

Lemma chars_concat (sep : string) (l : list string) :
  Forall P (list_ascii_of_string sep) ->
  Forall (fun x => Forall P (list_ascii_of_string x)) l ->
  Forall P (list_ascii_of_string (String.concat sep l)).
Proof.
  intros Hs Hl. induction Hl as [|x l Hx Hl IH]; [constructor|].
  destruct l as [|y l']; cbn [String.concat]; [exact Hx|].
  apply chars_app; [exact Hx|]. apply chars_app; [exact Hs | exact IH].
Qed.

Lemma chars_splitlines_aux (cur l : list ascii) :
  Forall P cur -> Forall P l ->
  Forall (fun x => Forall P (list_ascii_of_string x)) (splitlines_aux cur l).
Proof.
  remember (length l) as n eqn:En. assert (Hn : (length l <= n)%nat) by lia. clear En.
  revert cur l Hn. induction n as [|n IH]; intros cur l Hn Hcur Hl.
  - destruct l; [|cbn in Hn; lia]. cbn [splitlines_aux].
    destruct cur; [constructor|]. constructor; [apply chars_rev_cur; exact Hcur | constructor].
  - destruct l as [|c r].
    + cbn [splitlines_aux]. destruct cur; [constructor|].
      constructor; [apply chars_rev_cur; exact Hcur | constructor].
    + inversion Hl as [|? ? Hc Hr]; subst. cbn [length] in Hn. cbn [splitlines_aux].
      destruct (is_line_break c).
      * constructor; [apply chars_rev_cur; exact Hcur|].
        destruct r as [|d r'].
        -- apply IH; [cbn; lia | constructor | constructor].
        -- inversion Hr as [|? ? Hd Hr']; subst. cbn [length] in Hn.
           destruct (Ascii.eqb c (ascii_of_nat 13) && Ascii.eqb d (ascii_of_nat 10)).
           ++ apply IH; [lia | constructor | exact Hr'].
           ++ apply IH; [cbn [length]; lia | constructor | exact Hr].
      * apply IH; [lia | constructor; assumption | exact Hr].
Qed.

Lemma chars_split_ws_aux (cur l : list ascii) :
  Forall P cur -> Forall P l ->
  Forall (fun x => Forall P (list_ascii_of_string x)) (split_ws_aux cur l).
Proof.
  revert cur. induction l as [|c r IH]; intros cur Hcur Hl; cbn [split_ws_aux].
  - destruct cur; [constructor|]. constructor; [apply chars_rev_cur; exact Hcur | constructor].
  - inversion Hl as [|? ? Hc Hr]; subst. destruct (is_space c).
    + destruct cur; [apply IH; [constructor | exact Hr]|].
      constructor; [apply chars_rev_cur; exact Hcur | apply IH; [constructor | exact Hr]].
    + apply IH; [constructor; assumption | exact Hr].
Qed.

Lemma chars_flush_buf (buf ps : list string) :
  P " "%char ->
  Forall (fun x => Forall P (list_ascii_of_string x)) buf ->
  Forall (fun x => Forall P (list_ascii_of_string x)) ps ->
  Forall (fun x => Forall P (list_ascii_of_string x)) (flush_buf buf ps).
Proof.
  intros Hsp Hb Hp. unfold flush_buf. destruct buf as [|b bs]; [exact Hp|].
  destruct (String.eqb _ ""); [exact Hp|].
  apply Forall_app; split; [exact Hp|]. constructor; [|constructor].
  apply chars_strip, chars_concat; [repeat constructor; exact Hsp | exact Hb].
Qed.

Lemma chars_paragraphs_loop (buf ps lines : list string) :
  P " "%char ->
  Forall (fun x => Forall P (list_ascii_of_string x)) buf ->
  Forall (fun x => Forall P (list_ascii_of_string x)) ps ->
  Forall (fun x => Forall P (list_ascii_of_string x)) lines ->
  Forall (fun x => Forall P (list_ascii_of_string x)) (paragraphs_loop buf ps lines).
Proof.
  intros Hsp. revert buf ps. induction lines as [|ln rest IH]; intros buf ps Hb Hp Hl;
    cbn [paragraphs_loop]; [apply chars_flush_buf; assumption|].
  inversion Hl as [|? ? Hln Hr]; subst.
  assert (Hb' : Forall (fun x => Forall P (list_ascii_of_string x)) (buf ++ [ln])%list).
  { apply Forall_app; split; [exact Hb | constructor; [exact Hln | constructor]]. }
  destruct (String.eqb ln "").
  - apply IH; [constructor | apply chars_flush_buf; assumption | exact Hr].
  - destruct (_ && _).
    + apply IH; [constructor | apply chars_flush_buf; assumption | exact Hr].
    + apply IH; assumption.
Qed.

Lemma chars_dialogue_paragraphs (m : string) :
  P " "%char -> P (ascii_of_nat 10) ->
  Forall P (list_ascii_of_string m) ->
  Forall (fun x => Forall P (list_ascii_of_string x)) (dialogue_paragraphs m).
Proof.
  intros Hsp Hnl Hm. unfold dialogue_paragraphs.
  assert (Ht : Forall P (list_ascii_of_string (replace_char (ascii_of_nat 13) (ascii_of_nat 10) m))).
  { unfold replace_char. rewrite list_ascii_of_string_of_list_ascii. apply Forall_map.
    eapply List.Forall_impl; [|exact Hm]. intros c Hc. cbv beta. destruct (Ascii.eqb c _); assumption. }
  assert (Hr : Forall (fun x => Forall P (list_ascii_of_string x))
                 (map strip (splitlines (replace_char (ascii_of_nat 13) (ascii_of_nat 10) m)))).
  { apply Forall_map. eapply List.Forall_impl; [|apply chars_splitlines_aux; [constructor | exact Ht]].
    intros x Hx. apply chars_strip. exact Hx. }
  assert (Hc : Forall (fun x => Forall P (list_ascii_of_string x))
                 (content_lines (map strip (splitlines (replace_char (ascii_of_nat 13) (ascii_of_nat 10) m))))).
  { unfold content_lines. apply Forall_flat_map. eapply List.Forall_impl; [|exact Hr].
    intros x Hx. destruct (String.eqb x ""); [repeat constructor|].
    destruct (is_separator_line x); [constructor | constructor; [exact Hx | constructor]]. }
  destruct (paragraphs_loop [] [] _) eqn:E.
  - constructor; [|constructor]. apply chars_strip, chars_concat; [repeat constructor; exact Hsp|].
    apply forall_list_filter. exact Hc.
  - rewrite <- E. apply chars_paragraphs_loop; [exact Hsp | constructor | constructor | exact Hc].
Qed.

End Chars.

Lemma letters_zero (s : string) :
  Forall (fun c => is_alpha c = false) (list_ascii_of_string s) -> letters s = 0%nat.
Proof.
  unfold letters. intros H. induction H as [|c l Hc H IH]; [reflexivity|].
  cbn [List.filter]. rewrite Hc. exact IH.
Qed.

Lemma readable_of_no_letters (para : string) :
  Forall (fun c => is_alpha c = false) (list_ascii_of_string para) -> readable_of para = [].
Proof.
  intros H. unfold readable_of.
  assert (Hp : Forall (fun c => is_alpha c = false)
                 (list_ascii_of_string (String.concat " " (split_ws para)))).
  { apply chars_concat; [repeat constructor|]. apply chars_split_ws_aux; [constructor | exact H]. }
  match goal with |- List.filter _ ?l = [] => remember l as ss eqn:Ess end.
  assert (Hss : Forall (fun s => Forall (fun c => is_alpha c = false) (list_ascii_of_string s)) ss).
  { subst ss. apply Forall_map. apply forall_list_filter. unfold sent_split. apply Forall_map.
    apply List.Forall_forall. intros piece Hpiece. apply chars_strip.
    apply sent_split_aux_infix in Hpiece; [| discriminate]. cbn [rev app] in Hpiece.
    rewrite list_ascii_of_string_of_list_ascii. apply List.Forall_forall. intros c Hc.
    apply (infix_in _ _ c Hpiece) in Hc. rewrite List.Forall_forall in Hp. exact (Hp c Hc). }
  clear Ess. induction Hss as [|s ss Hs Hss IH]; [reflexivity|].
  cbn [List.filter]. rewrite IH.
  assert (E : is_readable_sentence s = false).
  { unfold is_readable_sentence. rewrite readable_decides. unfold readable_as_specified.
    rewrite (letters_zero (strip s)) by (apply chars_strip; exact Hs).
    destruct (20 <=? String.length (strip s))%nat eqn:E20; [|reflexivity].
    apply Nat.leb_le in E20. cbn [andb].
    destruct (String.length (strip s) <=? 260)%nat; [|reflexivity].
    replace (11 * String.length (strip s) <=? 20 * 0)%nat with false; [reflexivity|].
    symmetry. apply Nat.leb_gt. lia. }
  rewrite E. reflexivity.
Qed.

Lemma dialogue_segments_nil (seg lc : nat) (paras : list string) :
  Forall (fun p => readable_of p = []) paras -> dialogue_segments seg lc paras = [].
Proof.
  intros H. revert seg lc. induction H as [|p ps Hp H IH]; intros seg lc; [reflexivity|].
  cbn [dialogue_segments]. rewrite Hp. apply IH.
Qed.

(** Extra X20: materials with no letter at all (in particular empty materials)
    yield no segment: the local dialogue is exactly the intro followed by the
    outro. *)
Theorem dialogue_without_letters (materials_text : string) :
  (forall c, In c (list_ascii_of_string materials_text) -> is_alpha c = false) ->
  _two_host_local_dialogue materials_text = String.concat newline (dialogue_intro ++ dialogue_outro)%list.
Proof.
  intros H. unfold _two_host_local_dialogue.
  rewrite dialogue_segments_nil; [reflexivity|].
  eapply List.Forall_impl; [intros p Hp; apply readable_of_no_letters; exact Hp|].
  apply chars_dialogue_paragraphs; [reflexivity | reflexivity | apply List.Forall_forall; exact H].
Qed.

Lemma dialogue_without_letters_witness :
  _two_host_local_dialogue "--- 42 ---  3.5 %% ..." = String.concat newline (dialogue_intro ++ dialogue_outro)%list.
Proof. apply dialogue_without_letters. intros c Hc. vm_compute in Hc. intuition (subst; reflexivity). Defined.



(** ** Properties of [clean_for_tts] and of the content-pillar loader *)

Lemma sub_aux_in (m : option ascii -> list ascii -> option (list ascii)) (repl : list ascii)
    (p : option ascii) (k : nat) (l : list ascii) (c : ascii) :
  In c (sub_aux m repl p k l) -> In c repl \/ (In c l /\ exists p' r, m p' (c :: r) = None).
Proof.
  revert p k. induction l as [|x r IH]; intros p k H; cbn [sub_aux] in H; [contradiction|].
  destruct k as [|k].
  - destruct (m p (x :: r)) eqn:E.
    + apply in_app_or in H as [H|H]; [left; exact H|].
      destruct (IH _ _ H) as [H'|[H' H'']]; [left; exact H'|right; split; [right; exact H' | exact H'']].
    + destruct H as [<-|H]; [right; split; [left; reflexivity | exists p, r; exact E]|].
      destruct (IH _ _ H) as [H'|[H' H'']]; [left; exact H'|right; split; [right; exact H' | exact H'']].
  - destruct (IH _ _ H) as [H'|[H' H'']]; [left; exact H'|right; split; [right; exact H' | exact H'']].
Qed.

Lemma sub_aux_skip (m : option ascii -> list ascii -> option (list ascii)) (repl : list ascii)
    (p : option ascii) (k : nat) (l : list ascii) :
  (k <= length l)%nat -> exists p', sub_aux m repl p k l = sub_aux m repl p' 0 (skipn k l).
Proof.
  revert p l. induction k as [|k IH]; intros p l H; [exists p; reflexivity|].
  destruct l as [|c r]; cbn [length] in H; [lia|]. cbn [sub_aux skipn]. apply IH. lia.
Qed.

Lemma sub_aux_prev_irrel (m : option ascii -> list ascii -> option (list ascii)) (repl : list ascii)
    (p p' : option ascii) (k : nat) (l : list ascii) :
  (forall a b x, m a x = m b x) -> sub_aux m repl p k l = sub_aux m repl p' k l.
Proof.
  intros Hm. revert p p' k. induction l as [|c r IH]; intros p p' k; [reflexivity|].
  cbn [sub_aux]. destruct k; [|reflexivity]. rewrite (Hm p p' (c :: r)). reflexivity.
Qed.

Lemma skipn_drop_while (p : ascii -> bool) (l : list ascii) :
  skipn (length l - length (drop_while p l)) l = drop_while p l.
Proof.
  destruct (drop_while_split p l) as [pre E]. remember (drop_while p l) as d eqn:Ed. clear Ed.
  subst l. rewrite length_app.
  replace (length pre + length d - length d)%nat with (length pre) by lia.
  rewrite List.skipn_app, Nat.sub_diag, List.skipn_all. reflexivity.
Qed.

Lemma drop_while_length (p : ascii -> bool) (l : list ascii) :
  (length (drop_while p l) <= length l)%nat.
Proof. induction l as [|c r IH]; cbn [drop_while length]; [lia|]. destruct (p c); cbn [length]; lia. Qed.

Lemma sub_aux_match (m : option ascii -> list ascii -> option (list ascii)) (repl : list ascii)
    (p : option ascii) (c : ascii) (r rest : list ascii) :
  m p (c :: r) = Some rest ->
  sub_aux m repl p 0 (c :: r) = (repl ++ sub_aux m repl (Some c) (length (c :: r) - length rest - 1) r)%list.
Proof. intros H. cbn [sub_aux]. rewrite H. reflexivity. Qed.

Lemma letter_not_space (x : ascii) : is_ascii_letter x = true -> is_space x = false.
Proof. destruct x as [[] [] [] [] [] [] [] []]; vm_compute; congruence. Qed.

Lemma label_step_host (x : ascii) (L : list ascii) :
  is_ascii_letter x = true ->
  sub_aux label_match [] None 0 ((list_ascii_of_string "[Host ") ++ x :: "]"%char :: " "%char :: L)%list =
  sub_aux label_match [] None 0 (drop_while is_space L).
Proof.
  intros Hx. cbn [list_ascii_of_string app].
  assert (E : label_match None ("["%char :: "H"%char :: "o"%char :: "s"%char :: "t"%char :: " "%char :: x :: "]"%char :: " "%char :: L)
              = Some (drop_while is_space L)).
  { assert (D : forall R, drop_while is_space (" "%char :: x :: R) = x :: R).
    { intros R. revert Hx. destruct x as [[] [] [] [] [] [] [] []]; intros Hx;
        vm_compute in Hx; try discriminate; reflexivity. }
    assert (H1 : forall R, host_or_speaker ("H"%char :: "o"%char :: "s"%char :: "t"%char :: R) = Some R)
      by reflexivity.
    cbn [label_match]. rewrite H1, D, Hx. reflexivity. }
  rewrite (sub_aux_match _ _ _ _ _ _ E). cbn [app].
  destruct (sub_aux_skip label_match [] (Some "["%char)
              (length ("["%char :: "H"%char :: "o"%char :: "s"%char :: "t"%char :: " "%char :: x :: "]"%char :: " "%char :: L) - length (drop_while is_space L) - 1)
              ("H"%char :: "o"%char :: "s"%char :: "t"%char :: " "%char :: x :: "]"%char :: " "%char :: L)) as [p' Hp'].
  { cbn [length]. lia. }
  rewrite Hp'. pose proof (drop_while_length is_space L) as HlenL. rewrite (sub_aux_prev_irrel label_match [] p' None) by reflexivity.
  f_equal. cbn [length].
  replace (S (S (S (S (S (S (S (S (S (length L))))))))) - length (drop_while is_space L) - 1)%nat
    with (S (S (S (S (S (S (S (S (length L - length (drop_while is_space L)))))))))).
  - cbn [skipn]. apply skipn_drop_while.
  - pose proof (drop_while_length is_space L). lia.
Qed.

Lemma bullet_kept (p : option ascii) (c : ascii) (r : list ascii) :
  bullet_match p (c :: r) = None -> nat_of_ascii c <> 183%nat.
Proof. cbn [bullet_match]. destruct (Nat.eqb_spec (nat_of_ascii c) 183); [discriminate | tauto]. Qed.

Ltac char_facts := repeat split; vm_compute; first [reflexivity | congruence].

(** Extra X22: the text [clean_for_tts] returns is stripped, holds no two
    spaces in a row, no white space other than the plain space, none of the
    symbols [_*/#=<>{}\[]|`~^] and no middle dot. *)
Theorem clean_for_tts_normalized (text : string) :
  strip (clean_for_tts text) = clean_for_tts text /\
  (forall c, In c (list_ascii_of_string (clean_for_tts text)) ->
     is_symbol c = false /\ nat_of_ascii c <> 183%nat /\ (is_space c = true -> c = " "%char)) /\
  (forall a b, clean_for_tts text <> a ++ "  " ++ b).
Proof.
  unfold clean_for_tts. cbv zeta.
  generalize (re_sub dehyphen_match "" (re_sub email_match "" (re_sub url_match ""
    (re_sub colon_label_match "" (re_sub label_match "" text))))) as t0. intros t0.
  set (A := sub_runs is_symbol false (list_ascii_of_string t0)).
  set (B := sub_aux bullet_match [","%char; " "%char] None 0 A).
  assert (HB : list_ascii_of_string (re_sub bullet_match ", " (re_sub_runs is_symbol t0)) = B).
  { unfold re_sub, re_sub_runs. rewrite !list_ascii_of_string_of_list_ascii. reflexivity. }
  set (T := strip (re_sub_runs is_space (re_sub bullet_match ", " (re_sub_runs is_symbol t0)))).
  assert (HT : is_infix (list_ascii_of_string T) (sub_runs is_space false B)).
  { unfold T. eapply is_infix_trans; [apply strip_infix|]. unfold re_sub_runs at 1.
    rewrite list_ascii_of_string_of_list_ascii, HB. exists [], []. rewrite app_nil_r. reflexivity. }
  split; [apply strip_idem|]. split.
  - intros c Hc. apply (infix_in _ _ c HT) in Hc.
    apply sub_runs_in in Hc as [[Hc Hsp]| ->]; [|char_facts].
    apply sub_aux_in in Hc as [Hc|[Hc [p [r Hr]]]].
    + destruct Hc as [<-|[<-|[]]]; char_facts.
    + apply bullet_kept in Hr.
      apply sub_runs_in in Hc as [[_ Hsy]| ->]; [|char_facts].
      split; [exact Hsy|]. split; [exact Hr|]. intros E. congruence.
  - intros a b E. apply (infix_no_pair _ _ HT (fun k1 k2 => sub_runs_no_pair is_space false B k1 k2 eq_refl)
      (list_ascii_of_string a) (list_ascii_of_string b)).
    rewrite E, !list_ascii_of_string_app. reflexivity.
Qed.

(** Extra X23: a leading label ["[Host X] "] ([X] an ASCII letter, as the
    [hostA] and [hostB] lines of both script builders carry) is dropped by
    [clean_for_tts] together with the white space after it: the result is that
    of the text with its leading white space removed. *)
Theorem clean_for_tts_host_label (x : ascii) (s : string) :
  is_ascii_letter x = true ->
  clean_for_tts ("[Host " ++ String x "] " ++ s) =
  clean_for_tts (string_of_list_ascii (drop_while is_space (list_ascii_of_string s))).
Proof.
  intros Hx. unfold clean_for_tts.
  assert (H : re_sub label_match "" ("[Host " ++ String x "] " ++ s) =
              re_sub label_match "" (string_of_list_ascii (drop_while is_space (list_ascii_of_string s)))).
  { unfold re_sub. rewrite list_ascii_of_string_of_list_ascii. f_equal.
    rewrite !list_ascii_of_string_app. exact (label_step_host x (list_ascii_of_string s) Hx). }
  rewrite H. reflexivity.
Qed.

Lemma clean_for_tts_host_label_witness :
  clean_for_tts (hostB "  Cells divide.") = "Cells divide." /\
  clean_for_tts (hostA "Host B: see www.example.org * now") = "see now".
Proof.
  split.
  - replace (hostB "  Cells divide.") with ("[Host " ++ String "B" "] " ++ "  Cells divide.") by reflexivity.
    rewrite (clean_for_tts_host_label "B" "  Cells divide." eq_refl). vm_compute. reflexivity.
  - replace (hostA "Host B: see www.example.org * now")
      with ("[Host " ++ String "A" "] " ++ "Host B: see www.example.org * now") by reflexivity.
    rewrite (clean_for_tts_host_label "A" "Host B: see www.example.org * now" eq_refl).
    vm_compute. reflexivity.
Defined.


Lemma try_candidates_none (load_json : string -> option json) (cs : list string) :
  (forall fp data, In fp cs -> load_json fp = Some data -> accept_pillar data = None) ->
  try_candidates load_json cs = None.
Proof.
  induction cs as [|fp rest IH]; intros H; cbn [try_candidates]; [reflexivity|].
  destruct (load_json fp) as [data|] eqn:El.
  - rewrite (H fp data (or_introl eq_refl) El). apply IH. intros fp' d' Hin. apply H. right. exact Hin.
  - apply IH. intros fp' d' Hin. apply H. right. exact Hin.
Qed.



(** Extra X25: as soon as some file name contains "pillar" and ends in
    ".json", only such files are tried: when none of them loads as an accepted
    pillar, [_load_content_pillar] returns [None], whatever the other JSON
    files of the materials hold. *)
Theorem load_content_pillar_named_only (walk : string -> option (list (string * string)))
    (join : string -> string -> string) (load_json : string -> option json) (dirs : list string) :
  pillar_named walk join dirs <> [] ->
  (forall fp data, In fp (pillar_named walk join dirs) -> load_json fp = Some data -> accept_pillar data = None) ->
  _load_content_pillar walk join load_json dirs = None.
Proof.
  intros Hne H. unfold _load_content_pillar.
  destruct (pillar_named walk join dirs) as [|c cs] eqn:Ep; [contradiction|].
  apply try_candidates_none. exact H.
Qed.

Lemma load_content_pillar_named_only_witness :
  _load_content_pillar shadow_walk shadow_join shadow_load ["materials"] = None /\
  _load_content_pillar shadow_walk shadow_join shadow_load ["materials"; ""] = None.
Proof.
  split; apply load_content_pillar_named_only;
    try (vm_compute; discriminate);
    intros fp data Hin; vm_compute in Hin; destruct Hin as [<-|[]]; vm_compute; discriminate.
Defined.

